(** * fsm.py: a weighted, command-executing finite automaton

    A shallow embedding of [src/fsm.py] (classes [Command], [State], [DFA]
    and the exception [NotInitializedError]) and the properties of its
    registration, weighted selection, step protocol and run loops.

    Python objects that are mutated in place live in an explicit [World];
    methods are state-and-exception computations over it.  An exception
    keeps the mutations made before it was raised, as in Python. *)

From Stdlib Require Import ZArith QArith Lqa Lia String Ascii List.
From stdpp Require Import base option list gmap strings.

Local Open Scope string_scope.

(** ** Exceptions and outcomes *)

(** The exception classes the module raises.  [DoesNotFound] is
    [State.DoesNotFound] and [NotInitializedError] the module-level class;
    both derive from [ValueError].  [AttributeError] and [TypeError] are the
    ones the interpreter raises for a missing attribute and for
    [issubclass] on a non-class.  [BadRef] is not a Python exception: it
    marks a reference that points outside the model's heap or class table,
    which no Python program can produce. *)
Inductive exn : Set :=
  | ValueError
  | KeyError
  | TypeError
  | AttributeError
  | NotImplementedError
  | NotInitializedError
  | DoesNotFound
  | BadRef.

(** [except ValueError] also catches the two subclasses. *)
Definition is_ValueError (e : exn) : bool :=
  match e with
  | ValueError | NotInitializedError | DoesNotFound => true
  | _ => false
  end.

(** A call returns a value, raises, or (for the two [while] loops only)
    is cut off by the fuel of the model. *)
Inductive Outcome (A : Type) : Type :=
  | Ok (a : A)
  | Raise (e : exn)
  | OutOfFuel.
Arguments Ok {A} a.
Arguments Raise {A} e.
Arguments OutOfFuel {A}.

(** ** State-and-exception computations *)

Definition M (S A : Type) : Type := S -> Outcome A * S.

Definition ret {S A} (a : A) : M S A := fun s => (Ok a, s).
Definition raise {S A} (e : exn) : M S A := fun s => (Raise e, s).
Definition bind {S A B} (m : M S A) (k : A -> M S B) : M S B :=
  fun s =>
    match m s with
    | (Ok a, s') => k a s'
    | (Raise e, s') => (Raise e, s')
    | (OutOfFuel, s') => (OutOfFuel, s')
    end.
Definition get {S} : M S S := fun s => (Ok s, s).
Definition gets {S A} (f : S -> A) : M S A := fun s => (Ok (f s), s).
Definition modify {S} (f : S -> S) : M S unit := fun s => (Ok tt, f s).
Definition from_option {S A} (e : exn) (o : option A) : M S A :=
  match o with Some a => ret a | None => raise e end.

Declare Scope py_scope.
Delimit Scope py_scope with py.
Notation "x <- m ;; k" := (bind m (fun x => k))
  (at level 20, m at level 99, k at level 200, only parsing) : py_scope.
Notation "m ;; k" := (bind m (fun _ => k))
  (at level 100, k at level 200, only parsing, right associativity) : py_scope.

(** ** Numbers

    Weights, sums and times are Python numbers ([int] or [float]); every
    finite one is a rational.  Comparison is exact.  [+] and [*] are exact
    on [int] and rounded on [float], so the model takes them as operations
    [fadd] and [fmul] of its own; [exact_ops] is the unrounded instance. *)
Class NumOps : Type := {
  fadd : Q -> Q -> Q;
  fmul : Q -> Q -> Q
}.

(** What rounding keeps: a sum of two non-negative numbers is not below its
    first operand, and a product with zero is zero. *)
Class NumLaws (ops : NumOps) : Prop := {
  fadd_ge_l : forall x y : Q, (0 <= x -> 0 <= y -> x <= fadd x y)%Q;
  fmul_zero_r : forall r w : Q, (w == 0 -> fmul r w == 0)%Q
}.

Definition exact_ops : NumOps := {| fadd := Qplus; fmul := Qmult |}.

Definition Qlt_bool (x y : Q) : bool := negb (Qle_bool y x).

(** ** Class names

    [cls.__name__.lower()] for ASCII names. *)
Definition lower_ascii (c : ascii) : ascii :=
  let n := nat_of_ascii c in
  if (65 <=? n)%nat && (n <=? 90)%nat then ascii_of_nat (n + 32) else c.

Fixpoint lower (s : string) : string :=
  match s with
  | EmptyString => EmptyString
  | String c rest => String (lower_ascii c) (lower rest)
  end.

(** ** Dictionaries with an iteration order

    The class attribute [weight] is iterated twice ([_set_weight] and
    [choose]); it is kept as its items in iteration order. *)
Definition dict_keys {V} (d : list (string * V)) : list string := map fst d.

Fixpoint dict_get {V} (d : list (string * V)) (k : string) : option V :=
  match d with
  | [] => None
  | (k', v) :: rest => if String.eqb k' k then Some v else dict_get rest k
  end.

(** ** Data model *)

(** References to [State] instances (indices into the heap) and to class
    objects (indices into the class tables). *)
Abbreviation addr := nat.
Abbreviation cref := nat.

(** A [Command] instance: its class and the [weight] attribute, which does
    not exist until [_set_weight] assigns it.  The keyword arguments that
    become the rest of its [__dict__] are opaque to the engine. *)
Record CommandObj : Type := {
  cmd_class : cref;
  cmd_weight : option Q
}.

Definition new_Command (cls : cref) : CommandObj :=
  {| cmd_class := cls; cmd_weight := None |}.

Definition set_cmd_weight (w : Q) (c : CommandObj) : CommandObj :=
  {| cmd_class := cmd_class c; cmd_weight := Some w |}.

(** A [State] instance as [State.__init__] builds it.  [self.dfa] is the one
    automaton of the world. *)
Record StateObj : Type := {
  st_class : cref;
  commands : gmap string CommandObj;
  _weight_sum : Q
}.

Definition new_State (cls : cref) : StateObj :=
  {| st_class := cls; commands := ∅; _weight_sum := 0%Q |}.

Definition set_commands (c : gmap string CommandObj) (self : StateObj) : StateObj :=
  {| st_class := st_class self; commands := c; _weight_sum := _weight_sum self |}.

Definition set__weight_sum (x : Q) (self : StateObj) : StateObj :=
  {| st_class := st_class self; commands := commands self; _weight_sum := x |}.

Section Model.
Context {Acc : Type}.

(** The [DFA] instance as [DFA.__init__] builds it ([_state_params] is
    opaque).  [None] in a field is Python's [None]. *)
Record DFA : Type := {
  nexec : option Z;
  duration : option Q;
  states : gmap string addr;
  state : option addr;
  _state_ret : option Acc
}.

Definition DFA_init (nexec : option Z) (duration : option Q) : DFA :=
  {| nexec := nexec; duration := duration; states := ∅; state := None;
     _state_ret := None |}.

(** Everything user code can read or change: the automaton, the [State]
    instances it created, the wall clock read by [time.time()], the
    position in the sequence of [random.random()] results, and what was
    printed. *)
Record World : Type := {
  dfa : DFA;
  heap : list StateObj;
  clock : Q;
  rng_pos : nat;
  stdout : list string
}.

Definition set_dfa (d : DFA) (w : World) : World :=
  {| dfa := d; heap := heap w; clock := clock w; rng_pos := rng_pos w;
     stdout := stdout w |}.

Definition set_heap (h : list StateObj) (w : World) : World :=
  {| dfa := dfa w; heap := h; clock := clock w; rng_pos := rng_pos w;
     stdout := stdout w |}.

Definition set_clock (t : Q) (w : World) : World :=
  {| dfa := dfa w; heap := heap w; clock := t; rng_pos := rng_pos w;
     stdout := stdout w |}.

Definition set_rng_pos (n : nat) (w : World) : World :=
  {| dfa := dfa w; heap := heap w; clock := clock w; rng_pos := n;
     stdout := stdout w |}.

Definition set_stdout (out : list string) (w : World) : World :=
  {| dfa := dfa w; heap := heap w; clock := clock w; rng_pos := rng_pos w;
     stdout := out |}.

Definition set_nexec (n : option Z) (w : World) : World :=
  set_dfa {| nexec := n; duration := duration (dfa w); states := states (dfa w);
             state := state (dfa w); _state_ret := _state_ret (dfa w) |} w.

Definition set_duration (d : option Q) (w : World) : World :=
  set_dfa {| nexec := nexec (dfa w); duration := d; states := states (dfa w);
             state := state (dfa w); _state_ret := _state_ret (dfa w) |} w.

Definition set_states (m : gmap string addr) (w : World) : World :=
  set_dfa {| nexec := nexec (dfa w); duration := duration (dfa w); states := m;
             state := state (dfa w); _state_ret := _state_ret (dfa w) |} w.

Definition set_state (s : option addr) (w : World) : World :=
  set_dfa {| nexec := nexec (dfa w); duration := duration (dfa w);
             states := states (dfa w); state := s;
             _state_ret := _state_ret (dfa w) |} w.

Definition set__state_ret (r : option Acc) (w : World) : World :=
  set_dfa {| nexec := nexec (dfa w); duration := duration (dfa w);
             states := states (dfa w); state := state (dfa w);
             _state_ret := r |} w.

(** What user code does besides calling the engine: it prints, and it
    takes time. *)
Definition print (line : string) : M World unit :=
  modify (fun w => set_stdout (stdout w ++ [line]) w).

Definition elapse (dt : Q) : M World unit :=
  modify (fun w => set_clock (clock w + dt)%Q w).

(** ** Classes

    User code: the bodies of methods are arbitrary computations over the
    world.  A method of a command takes the accumulator and returns the
    next one; a hook of a state takes [self] and returns nothing. *)
Definition Method : Type := option Acc -> M World (option Acc).
Definition Hook : Type := addr -> M World unit.

(** A class object given where a [Command] class is expected.
    [c_is_Command] is [issubclass(cls, Command)]; [execute] is the method
    the base class declares; [c_do] is the attribute [do], which the base
    class does not have. *)
Record CommandClass : Type := {
  c_name : string;
  c_is_Command : bool;
  execute : Method;
  c_do : option Method
}.

(** [Command.execute] of the base class. *)
Definition Command_execute : Method := fun _ => raise NotImplementedError.

(** A class object given where a [State] class is expected: its
    [__name__], [issubclass(cls, State)], the class attribute [weight] and
    the methods its body defines, by attribute name. *)
Record StateClass : Type := {
  s_name : string;
  s_is_State : bool;
  weight : list (string * Q);
  s_methods : list (string * Hook)
}.

(** The class objects by reference ([None]: the object is not a class), and
    the results of the successive calls of [random.random()]. *)
Record Env : Type := {
  state_class : cref -> option StateClass;
  command_class : cref -> option CommandClass;
  random : nat -> Q
}.

End Model.

Arguments DFA : clear implicits.
Arguments World : clear implicits.
Arguments Method : clear implicits.
Arguments Hook : clear implicits.
Arguments CommandClass : clear implicits.
Arguments StateClass : clear implicits.
Arguments Env : clear implicits.

(** ** The engine *)

Section Engine.
Context {ops : NumOps} {Acc : Type}.
Variable env : Env Acc.

Local Open Scope py_scope.

Abbreviation World := (World Acc).

(** Run a method that only touches [self] on the instance at [a], writing
    the instance back whether the method returns or raises. *)
Definition at_obj {A} (a : addr) (m : M StateObj A) : M World A :=
  fun w =>
    match heap w !! a with
    | None => (Raise BadRef, w)
    | Some self =>
        let (r, self') := m self in (r, set_heap (<[a := self']> (heap w)) w)
    end.

Definition deref (a : addr) : M World StateObj :=
  o <- gets (fun w => heap w !! a) ;; from_option BadRef o.

(** [time.time()] and [random.random()]. *)
Definition time_time : M World Q := gets clock.

Definition random_random : M World Q :=
  fun w => (Ok (random env (rng_pos w)), set_rng_pos (S (rng_pos w)) w).

(** *** State *)

(** The class of an instance; [self.weight] is found on it. *)
Definition class_of (self : StateObj) : option (StateClass Acc) :=
  state_class env (st_class self).

(** The body of the loop of [_set_weight], over the keys of [self.weight]. *)
Fixpoint _set_weight_loop (weight : list (string * Q)) (keys : list string)
  : M StateObj unit :=
  match keys with
  | [] => ret tt
  | wname :: rest =>
      self <- get ;;
      match commands self !! wname with
      | None => raise ValueError
      | Some c =>
          w <- from_option KeyError (dict_get weight wname) ;;
          modify (fun self => set__weight_sum (fadd (_weight_sum self) w) self) ;;
          modify (fun self =>
                    set_commands (<[wname := set_cmd_weight w c]> (commands self)) self) ;;
          _set_weight_loop weight rest
      end
  end.

Definition _set_weight : M StateObj unit :=
  modify (set__weight_sum 0%Q) ;;
  self <- get ;;
  cls <- from_option BadRef (class_of self) ;;
  _set_weight_loop (weight cls) (dict_keys (weight cls)).

(** The loop of [_import_commands]: [issubclass] raises [TypeError] on a
    non-class, the method raises [KeyError] on a class that is not a
    [Command]; an accepted class is instantiated and stored under its
    lowered name, over whatever was stored there. *)
Fixpoint _import_loop (argv : list cref) : M StateObj unit :=
  match argv with
  | [] => ret tt
  | a :: rest =>
      cls <- from_option TypeError (command_class env a) ;;
      if c_is_Command cls then
        let cname := lower (c_name cls) in
        modify (fun self =>
                  set_commands (<[cname := new_Command a]> (commands self)) self) ;;
        _import_loop rest
      else raise KeyError
  end.

Definition _import_commands (argv : list cref) : M StateObj unit :=
  _import_loop argv ;; _set_weight.

Definition switch_state_to (name : string) : M World unit :=
  d <- gets dfa ;;
  match states d !! name with
  | None => raise DoesNotFound
  | Some a => modify (set_state (Some a))
  end.


(** The loop of [choose] for the draw [a], from the running sum [sum].
    Both branches of the body read [self.commands[wname].weight] before
    anything else, so the reads come first here. *)
Fixpoint choose_loop (self : StateObj) (a sum : Q) (keys : list string)
  : Outcome string :=
  match keys with
  | [] => Raise ValueError
  | wname :: rest =>
      match commands self !! wname with
      | None => Raise KeyError
      | Some c =>
          match cmd_weight c with
          | None => Raise AttributeError
          | Some w =>
              if Qle_bool sum a && Qlt_bool a (fadd sum w) then Ok wname
              else choose_loop self a (fadd sum w) rest
          end
      end
  end.

(** [choose] once the draw is known. *)
Definition choose_at (self : StateObj) (a : Q) : Outcome string :=
  match class_of self with
  | None => Raise BadRef
  | Some cls => choose_loop self a 0%Q (dict_keys (weight cls))
  end.

Definition choose (self : addr) : M World string :=
  r <- random_random ;;
  obj <- deref self ;;
  fun w => (choose_at obj (fmul r (_weight_sum obj)), w).

(** *** DFA *)

(** [self.state.<attr>]: [None] has none of the attributes the engine
    asks for. *)
Definition current_state : M World addr :=
  s <- gets (fun w => state (dfa w)) ;; from_option AttributeError s.

(** [self.states[sname]]. *)
Definition states_get (sname : string) : M World addr :=
  m <- gets (fun w => states (dfa w)) ;; from_option KeyError (m !! sname).

(** [state(self, **self._state_params)]: a new instance. *)
Definition alloc (obj : StateObj) : M World addr :=
  fun w => (Ok (length (heap w)), set_heap (heap w ++ [obj]) w).

Definition add_state (state : cref) (commands : list cref) (is_start : bool)
  : M World unit :=
  cls <- from_option TypeError (state_class env state) ;;
  if s_is_State cls then
    let sname := lower (s_name cls) in
    a <- alloc (new_State state) ;;
    modify (fun w => set_states (<[sname := a]> (states (dfa w))) w) ;;
    a1 <- states_get sname ;;
    at_obj a1 (_import_commands commands) ;;
    if is_start then
      a2 <- states_get sname ;; modify (set_state (Some a2))
    else ret tt
  else raise ValueError.

(** [dir(obj)] restricted to the names a class body can add, and
    [getattr(obj, name)]. *)
Definition dir (a : addr) : M World (list string) :=
  obj <- deref a ;;
  cls <- from_option BadRef (class_of obj) ;;
  ret (dict_keys (s_methods cls)).

Definition getattr (a : addr) (name : string) : M World (Hook Acc) :=
  obj <- deref a ;;
  cls <- from_option BadRef (class_of obj) ;;
  from_option AttributeError (dict_get (s_methods cls) name).

(** [self.state.commands[cname].do]: the bound method, or the exception of
    the lookup that fails. *)
Definition get_do (cname : string) : M World (Method Acc) :=
  a <- current_state ;;
  obj <- deref a ;;
  c <- from_option KeyError (commands obj !! cname) ;;
  ccls <- from_option BadRef (command_class env (cmd_class c)) ;;
  from_option AttributeError (c_do ccls).

(** [if name in attr_list: getattr(self.state, name)()] *)
Definition call_hook (attr_list : list string) (name : string) : M World unit :=
  if bool_decide (name ∈ attr_list) then
    a <- current_state ;; h <- getattr a name ;; h a
  else ret tt.

Definition _next_step : M World unit :=
  a0 <- current_state ;;
  cname <- choose a0 ;;
  a1 <- current_state ;;
  attr_list <- dir a1 ;;
  call_hook attr_list ("before_" ++ cname) ;;
  do <- get_do cname ;;
  arg <- gets (fun w => _state_ret (dfa w)) ;;
  r <- do arg ;;
  modify (set__state_ret r) ;;
  call_hook attr_list ("after_" ++ cname).

(** [count < self.nexec]; the module is Python 2 (see the [print]
    statements of its docstring), where [None] orders below every number. *)
Definition lt_count (count : Z) (n : option Z) : bool :=
  match n with
  | Some n => (count <? n)%Z
  | None => false
  end.

Fixpoint _drive_counter_loop (fuel : nat) (count : Z) : M World unit :=
  match fuel with
  | O => fun w => (OutOfFuel, w)
  | S fuel' =>
      n <- gets (fun w => nexec (dfa w)) ;;
      if lt_count count n then
        _next_step ;; _drive_counter_loop fuel' (count + 1)%Z
      else ret tt
  end.

Definition _drive_counter_machine (fuel : nat) : M World unit :=
  _drive_counter_loop fuel 0%Z.

(** [end_at - begin_at < self.duration].  The two time stamps are within a
    factor two of each other, where the subtraction of floats is exact. *)
Definition lt_elapsed (begin_at end_at : Q) (d : option Q) : bool :=
  match d with
  | Some d => Qlt_bool (end_at - begin_at) d
  | None => false
  end.

Fixpoint _drive_time_loop (fuel : nat) (begin_at end_at : Q) : M World unit :=
  match fuel with
  | O => fun w => (OutOfFuel, w)
  | S fuel' =>
      d <- gets (fun w => duration (dfa w)) ;;
      if lt_elapsed begin_at end_at d then
        _next_step ;;
        end_at' <- time_time ;;
        _drive_time_loop fuel' begin_at end_at'
      else ret tt
  end.

Definition _drive_time_machine (fuel : nat) : M World unit :=
  begin_at <- time_time ;; _drive_time_loop fuel begin_at begin_at.

Definition drive_machine (fuel : nat) : M World unit :=
  d <- gets dfa ;;
  if bool_decide (nexec d = None) && bool_decide (duration d = None) then
    raise ValueError
  else if bool_decide (state d = None) then raise NotInitializedError
  else if bool_decide (duration d = None) then _drive_counter_machine fuel
  else _drive_time_machine fuel.

(** *** StateMachine

    The thread that owns one [DFA] and delegates to it; what [start()] and
    [join()] add is scheduling, which has no counterpart here. *)
Definition StateMachine_add_state (state : cref) (commands : list cref)
    (is_start : bool) : M World unit :=
  add_state state commands is_start.

Definition StateMachine_run (fuel : nat) : M World unit :=
  drive_machine fuel.

End Engine.


(** ** Vocabulary of the properties *)

Section Vocabulary.
Context {ops : NumOps} {Acc : Type}.
Variable env : Env Acc.

Local Open Scope py_scope.

(** [n] calls of [_next_step] in a row, stopping at the first that does
    not return. *)
Fixpoint nsteps (n : nat) : M (World Acc) unit :=
  match n with
  | O => ret tt
  | S k => _next_step env ;; nsteps k
  end.

(** The first statement of [_next_step]: [cname = self.state.choose()]. *)
Definition select : M (World Acc) string :=
  a0 <- current_state ;; choose env a0.

(** [_next_step] up to and including the assignment to [_state_ret]; it
    hands the chosen name and [attr_list] to the rest of the step. *)
Definition step_until_executed : M (World Acc) (string * list string) :=
  cname <- select ;;
  a1 <- current_state ;;
  attr_list <- dir env a1 ;;
  call_hook env attr_list ("before_" ++ cname) ;;
  do <- get_do env cname ;;
  arg <- gets (fun w => _state_ret (dfa w)) ;;
  r <- do arg ;;
  modify (set__state_ret r) ;;
  ret (cname, attr_list).

(** An entry of [argv] that [_import_commands] accepts. *)
Definition valid_command (a : cref) : Prop :=
  exists cls, command_class env a = Some cls /\ c_is_Command cls = true.

(** The exception [_import_commands] raises at an entry it rejects. *)
Definition import_error (a : cref) : exn :=
  match command_class env a with
  | None => TypeError
  | Some _ => KeyError
  end.

(** The name an accepted entry is stored under. *)
Definition cname_of (a : cref) : string :=
  match command_class env a with
  | Some cls => lower (c_name cls)
  | None => ""
  end.

(** The dictionary the loop of [_import_commands] leaves: a later entry
    with the name of an earlier one takes its place. *)
Definition import_into (m : gmap string CommandObj) (argv : list cref)
  : gmap string CommandObj :=
  foldl (fun m a => <[cname_of a := new_Command a]> m) m argv.

(** The sum [_set_weight] and [choose] both accumulate, from [s], over
    the keys in iteration order. *)
Fixpoint running_sum (weight : list (string * Q)) (s : Q) (keys : list string) : Q :=
  match keys with
  | [] => s
  | k :: rest => running_sum weight (fadd s (default 0%Q (dict_get weight k))) rest
  end.

(** The command stored under [k] carries the weight the table gives [k]. *)
Definition entry_ok (weight : list (string * Q)) (self : StateObj) (k : string) : Prop :=
  exists c w, commands self !! k = Some c /\ cmd_weight c = Some w /\
              dict_get weight k = Some w.

(** The world [add_state] leaves once the instance is made, registered and
    its commands imported, before [is_start] is looked at. *)
Definition registered (cls : StateClass Acc) (self' : StateObj)
    (w : World Acc) : World Acc :=
  set_heap (heap w ++ [self'])
    (set_states (<[lower (s_name cls) := length (heap w)]> (states (dfa w))) w).

(** The registry of an automaton whose states were all made by
    [add_state]: every registered reference is a live instance, and no
    instance is registered under two names. *)
Definition registry_wf (w : World Acc) : Prop :=
  (forall n a, states (dfa w) !! n = Some a -> (a < length (heap w))%nat) /\
  (forall n1 n2 a, states (dfa w) !! n1 = Some a ->
                   states (dfa w) !! n2 = Some a -> n1 = n2).

End Vocabulary.

(** ** Automata a program can build *)

Section Reachability.
Context {ops : NumOps} {Acc : Type}.
Variable env : Env Acc.

(** [DFA.__init__] leaves no state registered, none current and no
    instance made; from there, any calls of [add_state] and of
    [switch_state_to], whether they return or raise. *)
Inductive built : World Acc -> Prop :=
  | built_init (w : World Acc) :
      states (dfa w) = ∅ -> state (dfa w) = None -> heap w = [] -> built w
  | built_add_state (w : World Acc) (st : cref) (argv : list cref)
      (is_start : bool) :
      built w -> built (snd (add_state env st argv is_start w))
  | built_switch (w : World Acc) (name : string) :
      built w -> built (snd (switch_state_to name w)).

(** Every instance in the heap was made from a class that derives from
    [State]. *)
Definition instances_of_State (w : World Acc) : Prop :=
  forall a self, heap w !! a = Some self ->
    exists cls, class_of env self = Some cls /\ s_is_State cls = true.

(** The current state, when there is one, is an instance in the heap. *)
Definition current_live (w : World Acc) : Prop :=
  forall a, state (dfa w) = Some a -> (a < length (heap w))%nat.

End Reachability.

(** ** The phases of a step *)

Section Phases.
Context {ops : NumOps} {Acc : Type}.
Variable env : Env Acc.

Local Open Scope py_scope.

(** After the selection: [attr_list = dir(self.state)] and the pre-hook,
    if the state has one for the chosen command. *)
Definition before_phase (cname : string) : M (World Acc) (list string) :=
  a1 <- current_state ;;
  attr_list <- dir env a1 ;;
  call_hook env attr_list ("before_" ++ cname) ;;
  ret attr_list.

(** [self._state_ret = self.state.commands[cname].do(self._state_ret)] *)
Definition execute_phase (cname : string) : M (World Acc) unit :=
  do <- get_do env cname ;;
  arg <- gets (fun w => _state_ret (dfa w)) ;;
  r <- do arg ;;
  modify (set__state_ret r).

(** The condition of the [while] loop [drive_machine] runs from [w0],
    evaluated in [wj] after [j] completed steps: [count < self.nexec] when
    no duration was configured at the start, and
    [end_at - begin_at < self.duration] otherwise. *)
Definition keeps_running (w0 : World Acc) (j : nat) (wj : World Acc) : bool :=
  match duration (dfa w0) with
  | None => lt_count (Z.of_nat j) (nexec (dfa wj))
  | Some _ => lt_elapsed (clock w0) (clock wj) (duration (dfa wj))
  end.

End Phases.
(** ** The example of the module docstring *)

Module Docstring.

Local Open Scope py_scope.

(** [class C1(Command): def execute(self, params): print "Execute C1"] and
    its two siblings: [execute] only, as the base class asks. *)
Definition C (name : string) : CommandClass Z :=
  {| c_name := name; c_is_Command := true;
     execute := fun _ => print ("Execute " ++ name) ;; ret None;
     c_do := None |}.

Definition S1 : StateClass Z :=
  {| s_name := "S1"; s_is_State := true;
     weight := [("c2", 1%Q); ("c3", 1%Q)];
     s_methods :=
       [("before_c2", fun _ => print "State S1");
        ("before_c3", fun _ => print "State S1");
        ("after_c2", fun _ => switch_state_to "s2");
        ("after_c3", fun _ => print "remains s1")] |}.

Definition S2 : StateClass Z :=
  {| s_name := "S2"; s_is_State := true;
     weight := [("c1", 1%Q); ("c3", 1%Q)];
     s_methods :=
       [("before_c1", fun _ => print "State S2");
        ("before_c3", fun _ => print "State S2");
        ("after_c1", fun _ => switch_state_to "s1");
        ("after_c3", fun _ => print "remains S2")] |}.

(** References: 1, 2, 3 are [C1], [C2], [C3]; 11 and 12 are [S1] and [S2];
    every call of [random.random()] returns 1/4. *)
Definition env : Env Z :=
  {| state_class := fun r =>
       match r with 11%nat => Some S1 | 12%nat => Some S2 | _ => None end;
     command_class := fun r =>
       match r with
       | 1%nat => Some (C "C1") | 2%nat => Some (C "C2") | 3%nat => Some (C "C3")
       | _ => None
       end;
     random := fun _ => (1 # 4)%Q |}.

Definition world0 (nexec : option Z) (duration : option Q) : World Z :=
  {| dfa := DFA_init nexec duration; heap := []; clock := 0%Q; rng_pos := 0%nat;
     stdout := [] |}.

(** [sm.add_state(S1, C2, C3, is_start=True); sm.add_state(S2, C1, C3)] *)
Definition setup : M (World Z) unit :=
  add_state (ops := exact_ops) env 11%nat [2%nat; 3%nat] true ;;
  add_state (ops := exact_ops) env 12%nat [1%nat; 3%nat] false.

Definition main (nexec : option Z) (duration : option Q) (fuel : nat)
  : Outcome unit * World Z :=
  (setup ;; drive_machine (ops := exact_ops) env fuel) (world0 nexec duration).

End Docstring.


(** ** The same automaton with commands the engine can run

    The classes of the docstring, except that the commands also define
    [do], the attribute [_next_step] calls.  A command prints, takes half a
    second and counts: it returns the accumulator plus one. *)

Module Counting.

Local Open Scope py_scope.

Definition run (name : string) : Method Z :=
  fun params =>
    print ("Execute " ++ name) ;;
    elapse (1 # 2)%Q ;;
    ret (Some (Z.succ (default 0%Z params))).

Definition C (name : string) : CommandClass Z :=
  {| c_name := name; c_is_Command := true; execute := run name;
     c_do := Some (run name) |}.

(** A class that does not derive from [Command]. *)
Definition Other : CommandClass Z :=
  {| c_name := "Other"; c_is_Command := false; execute := Command_execute;
     c_do := None |}.

(** [S1] under another class name with the same lowered name. *)
Definition s1 : StateClass Z :=
  {| s_name := "s1"; s_is_State := true; weight := [("c3", 1%Q)];
     s_methods := [] |}.

(** A state whose post-hook lowers the configured count:
    [def after_c3(self): self.dfa.nexec = 1]. *)
Definition Short : StateClass Z :=
  {| s_name := "Short"; s_is_State := true; weight := [("c3", 1%Q)];
     s_methods := [("after_c3", fun _ => modify (set_nexec (Some 1%Z)))] |}.

(** A state whose only weight is zero, and one with an empty table. *)
Definition Idle : StateClass Z :=
  {| s_name := "Idle"; s_is_State := true; weight := [("c3", 0%Q)];
     s_methods := [] |}.

Definition Empty : StateClass Z :=
  {| s_name := "Empty"; s_is_State := true; weight := []; s_methods := [] |}.

(** References: 1, 2, 3 are [C1], [C2], [C3]; 4 is a command class named
    [c2]; 5 is [Other]; 6 is not a class.  11 and 12 are [S1] and [S2] of
    the docstring, 13 to 16 the states above.  [random.random()] always
    returns 1/4. *)
Definition env : Env Z :=
  {| state_class := fun r =>
       match r with
       | 11%nat => Some Docstring.S1 | 12%nat => Some Docstring.S2
       | 13%nat => Some s1 | 14%nat => Some Short
       | 15%nat => Some Idle | 16%nat => Some Empty
       | _ => None
       end;
     command_class := fun r =>
       match r with
       | 1%nat => Some (C "C1") | 2%nat => Some (C "C2") | 3%nat => Some (C "C3")
       | 4%nat => Some (C "c2") | 5%nat => Some Other
       | _ => None
       end;
     random := fun _ => (1 # 4)%Q |}.

Definition add (state : cref) (commands : list cref) (is_start : bool)
  : M (World Z) unit :=
  add_state (ops := exact_ops) env state commands is_start.

(** The automaton after
    [sm.add_state(S1, C2, C3, is_start=True); sm.add_state(S2, C1, C3)]. *)
Definition start (nexec : option Z) (duration : option Q) : World Z :=
  snd ((add 11%nat [2%nat; 3%nat] true ;; add 12%nat [1%nat; 3%nat] false)
         (Docstring.world0 nexec duration)).

(** The automaton after [sm.add_state(Short, C3, is_start=True)]. *)
Definition start_short (nexec : option Z) : World Z :=
  snd (add 14%nat [3%nat] true (Docstring.world0 nexec None)).

(** The automaton after [sm.add_state(Idle, C3, is_start=True)]. *)
Definition start_idle : World Z :=
  snd (add 15%nat [3%nat] true (Docstring.world0 (Some 1%Z) None)).

Definition drive (fuel : nat) : M (World Z) unit :=
  drive_machine (ops := exact_ops) env fuel.

Definition steps (n : nat) : M (World Z) unit :=
  nsteps (ops := exact_ops) env n.

End Counting.

(** ** States and commands that misbehave *)

Module Faults.

Local Open Scope py_scope.

(** [class Boom(Command): def do(self, params): print ...; raise KeyError] *)
Definition Boom : CommandClass Z :=
  {| c_name := "Boom"; c_is_Command := true; execute := Command_execute;
     c_do := Some (fun _ => print "Execute Boom" ;; raise KeyError) |}.

(** A state whose command raises. *)
Definition Risky : StateClass Z :=
  {| s_name := "Risky"; s_is_State := true; weight := [("boom", 1%Q)];
     s_methods :=
       [("before_boom", fun _ => print "State Risky");
        ("after_boom", fun _ => print "after boom")] |}.

(** A state whose pre-hook raises. *)
Definition Guarded : StateClass Z :=
  {| s_name := "Guarded"; s_is_State := true; weight := [("c3", 1%Q)];
     s_methods :=
       [("before_c3", fun _ => print "State Guarded" ;; raise NotImplementedError);
        ("after_c3", fun _ => print "after c3")] |}.

(** A state whose pre-hook switches to [s1], which has no hooks. *)
Definition Hasty : StateClass Z :=
  {| s_name := "Hasty"; s_is_State := true; weight := [("c3", 1%Q)];
     s_methods :=
       [("before_c3", fun _ => switch_state_to "s1");
        ("after_c3", fun _ => print "after c3")] |}.

(** A state with an entry of weight zero before one of weight one. *)
Definition Mixed : StateClass Z :=
  {| s_name := "Mixed"; s_is_State := true;
     weight := [("c2", 0%Q); ("c3", 1%Q)]; s_methods := [] |}.

(** References: 2 and 3 are the counting commands [C2] and [C3], 7 is
    [Boom]; 13 is the hookless state [s1], 17 to 20 the states above.
    [random.random()] always returns 1/4. *)
Definition env : Env Z :=
  {| state_class := fun r =>
       match r with
       | 13%nat => Some Counting.s1 | 17%nat => Some Risky
       | 18%nat => Some Guarded | 19%nat => Some Hasty | 20%nat => Some Mixed
       | _ => None
       end;
     command_class := fun r =>
       match r with
       | 2%nat => Some (Counting.C "C2") | 3%nat => Some (Counting.C "C3")
       | 7%nat => Some Boom
       | _ => None
       end;
     random := fun _ => (1 # 4)%Q |}.

Definition add (state : cref) (commands : list cref) (is_start : bool)
  : M (World Z) unit :=
  add_state (ops := exact_ops) env state commands is_start.

(** An automaton whose only state is the class at [st], with [commands]. *)
Definition only (st : cref) (commands : list cref) (nexec : option Z)
    (duration : option Q) : World Z :=
  snd (add st commands true (Docstring.world0 nexec duration)).

(** [Hasty] as the start state, and [s1] to switch to. *)
Definition hasty : World Z :=
  snd ((add 19%nat [3%nat] true ;; add 13%nat [3%nat] false)
         (Docstring.world0 (Some 1%Z) None)).

Definition step : M (World Z) unit := _next_step (ops := exact_ops) env.

Definition drive (fuel : nat) : M (World Z) unit :=
  drive_machine (ops := exact_ops) env fuel.

End Faults.
(** ** Properties of the engine *)

Section Properties.
Context {ops : NumOps} {Acc : Type}.
Variable env : Env Acc.

Local Open Scope py_scope.

Abbreviation World := (World Acc).

(** *** Dictionaries *)

Lemma dict_get_keys {V} (d : list (string * V)) (k : string) :
  k ∈ dict_keys d -> is_Some (dict_get d k).
Proof.
  induction d as [|[k' v] d IH]; cbn.
  - intros H. inversion H.
  - intros H. destruct (String.eqb k' k) eqn:E; [eauto|].
    apply IH. apply elem_of_cons in H as [->|H]; [|exact H].
    rewrite String.eqb_refl in E. discriminate.
Qed.

(** *** Importing commands and setting weights *)

Lemma _set_weight_loop_ok weight keys : forall self self',
  _set_weight_loop weight keys self = (Ok tt, self') ->
  st_class self' = st_class self /\
  _weight_sum self' = running_sum weight (_weight_sum self) keys /\
  (forall k, k ∈ keys \/ entry_ok weight self k -> entry_ok weight self' k).
Proof.
  induction keys as [|wname rest IH]; intros self self' Hrun.
  - cbn in Hrun. injection Hrun as <-. repeat split; [].
    intros k [H|H]; [inversion H | exact H].
  - cbn in Hrun. unfold bind, get in Hrun.
    destruct (commands self !! wname) as [c|] eqn:Hc; [|discriminate].
    destruct (dict_get weight wname) as [w|] eqn:Hw; [|discriminate].
    cbn in Hrun. apply IH in Hrun as (Hcls & Hsum & Hent). cbn in *.
    rewrite Hw. repeat split; [exact Hcls | exact Hsum |].
    intros k Hk. apply Hent.
    destruct (decide (k = wname)) as [->|Hne].
    + right. exists (set_cmd_weight w c), w. cbn.
      rewrite lookup_insert_eq. auto.
    + destruct Hk as [Hk|Hk].
      * left. apply elem_of_cons in Hk as [?|?]; [contradiction | assumption].
      * right. destruct Hk as (c' & w' & ? & ? & ?). exists c', w'. cbn.
        rewrite lookup_insert_ne by congruence. auto.
Qed.

(** The loop of [_set_weight] returns when every key names an imported
    command, and raises [ValueError] otherwise. *)
Lemma _set_weight_loop_outcome weight keys : forall self,
  (forall k, k ∈ keys -> is_Some (dict_get weight k)) ->
  ((forall k, k ∈ keys -> is_Some (commands self !! k)) ->
     exists self', _set_weight_loop weight keys self = (Ok tt, self')) /\
  ((exists k, k ∈ keys /\ commands self !! k = None) ->
     fst (_set_weight_loop weight keys self) = Raise ValueError).
Proof.
  induction keys as [|wname rest IH]; intros self Hget.
  - split; [intros _; eexists; reflexivity|].
    intros (k & Hk & _). inversion Hk.
  - cbn. unfold bind, get.
    destruct (Hget wname) as [w Hw]; [left|]. rewrite Hw.
    destruct (commands self !! wname) as [c|] eqn:Hc.
    + cbn.
      set (self1 := set_commands _ _).
      assert (Hdom : forall k, commands self1 !! k = None <-> commands self !! k = None).
      { intros k. subst self1. cbn. destruct (decide (wname = k)) as [<-|Hne].
        - rewrite lookup_insert_eq, Hc. split; discriminate.
        - now rewrite lookup_insert_ne. }
      destruct (IH self1) as [IHok IHbad].
      { intros k Hk. apply Hget. now right. }
      split.
      * intros Hall. apply IHok. intros k Hk.
        destruct (commands self1 !! k) eqn:E; [eauto|].
        apply Hdom in E. destruct (Hall k) as [? ?]; [now right | congruence].
      * intros (k & Hk & Hnone). apply IHbad. exists k.
        apply elem_of_cons in Hk as [->|Hk]; [congruence|].
        split; [exact Hk | now apply Hdom].
    + split; [|reflexivity].
      intros Hall. destruct (Hall wname) as [? ?]; [left | congruence].
Qed.

Lemma _import_loop_ok argv : forall self,
  Forall (valid_command env) argv ->
  _import_loop env argv self =
    (Ok tt, set_commands (import_into env (commands self) argv) self).
Proof.
  induction argv as [|a rest IH]; intros self Hall.
  - destruct self. reflexivity.
  - inversion Hall as [|? ? (cls & Hcls & Hcmd) Hrest]; subst.
    cbn. unfold bind. rewrite Hcls. cbn. rewrite Hcmd. cbn.
    rewrite IH by assumption. cbn. unfold cname_of at 2. now rewrite Hcls.
Qed.

Lemma _import_loop_rejects pre a post : forall self,
  Forall (valid_command env) pre -> ~ valid_command env a ->
  _import_loop env (pre ++ a :: post)%list self =
    (Raise (import_error env a),
     set_commands (import_into env (commands self) pre) self).
Proof.
  induction pre as [|b pre IH]; intros self Hpre Hbad.
  - cbn. unfold bind, import_error.
    destruct (command_class env a) as [cls|] eqn:Hcls; cbn.
    + destruct (c_is_Command cls) eqn:Hcmd.
      * elim Hbad. now exists cls.
      * destruct self. reflexivity.
    + destruct self. reflexivity.
  - inversion Hpre as [|? ? (cls & Hcls & Hcmd) Hrest]; subst.
    cbn. unfold bind. rewrite Hcls. cbn. rewrite Hcmd. cbn.
    rewrite IH by assumption. cbn. unfold cname_of at 2. now rewrite Hcls.
Qed.

Lemma import_into_lookup argv : forall m k,
  is_Some (import_into env m argv !! k) <->
  is_Some (m !! k) \/ k ∈ map (cname_of env) argv.
Proof.
  induction argv as [|a rest IH]; intros m k; cbn.
  - split; [auto | intros [H|H]; [exact H | inversion H]].
  - unfold import_into in *. cbn. rewrite IH.
    destruct (decide (cname_of env a = k)) as [<-|Hne].
    + rewrite lookup_insert_eq. split; [intros _; right; left | eauto].
    + rewrite lookup_insert_ne by exact Hne. rewrite elem_of_cons.
      split; [tauto | intros [?|[?|?]]; [tauto | congruence | tauto]].
Qed.

Lemma _import_loop_class argv : forall self,
  st_class (snd (_import_loop env argv self)) = st_class self.
Proof.
  induction argv as [|a rest IH]; intros self; [reflexivity|].
  cbn. unfold bind. destruct (command_class env a) as [cls|]; [|reflexivity].
  cbn. destruct (c_is_Command cls); [|reflexivity].
  cbn. specialize (IH (set_commands (<[lower (c_name cls) := new_Command a]> (commands self)) self)).
  destruct (_import_loop env rest _) as [[ | |] self']; exact IH.
Qed.

(** What a successful [_import_commands] leaves in the instance: its class
    is the same, the total is the running sum over the table, and every key
    of the table names a command that carries the key's weight. *)
Lemma _import_commands_ok argv self0 self cls :
  class_of env self0 = Some cls ->
  _import_commands env argv self0 = (Ok tt, self) ->
  class_of env self = Some cls /\
  _weight_sum self = running_sum (weight cls) 0%Q (dict_keys (weight cls)) /\
  (forall k, k ∈ dict_keys (weight cls) -> entry_ok (weight cls) self k).
Proof.
  intros Hcls Hrun. unfold _import_commands, bind in Hrun.
  pose proof (_import_loop_class argv self0) as Hsame.
  destruct (_import_loop env argv self0) as [[[]| |] self1]; try discriminate.
  cbn in Hsame. unfold _set_weight, bind, modify, get in Hrun. cbn in Hrun.
  unfold class_of in *. cbn in Hrun. rewrite Hsame, Hcls in Hrun. cbn in Hrun.
  apply _set_weight_loop_ok in Hrun as (Hc & Hsum & Hent). cbn in *.
  rewrite Hc, Hsame. repeat split; [exact Hcls | exact Hsum |].
  intros k Hk. apply Hent. now left.
Qed.

(** *** Weighted selection *)

Lemma Qlt_bool_true (x y : Q) : Qlt_bool x y = true <-> (x < y)%Q.
Proof.
  unfold Qlt_bool. rewrite negb_true_iff. split.
  - intros H. apply Qnot_le_lt. intros Hle. apply Qle_bool_iff in Hle. congruence.
  - intros H. destruct (Qle_bool y x) eqn:E; [|reflexivity].
    apply Qle_bool_iff in E. now apply Qlt_not_le in H.
Qed.

Lemma Qlt_bool_false (x y : Q) : Qlt_bool x y = false <-> (y <= x)%Q.
Proof.
  unfold Qlt_bool. rewrite negb_false_iff. apply Qle_bool_iff.
Qed.

Lemma running_sum_app weight s pre post :
  running_sum weight s (pre ++ post)%list = running_sum weight (running_sum weight s pre) post.
Proof.
  revert s. induction pre as [|k pre IH]; intros s; [reflexivity|]. cbn. apply IH.
Qed.

(** The walk of [choose] stops at the first key whose half-open interval
    holds the draw, whenever the draw lies between the running sum it
    starts from and the running sum over all the keys. *)
Lemma choose_loop_hits weight self a : forall keys s,
  (forall k, k ∈ keys -> entry_ok weight self k) ->
  (s <= a)%Q -> (a < running_sum weight s keys)%Q ->
  exists pre k wk post,
    keys = (pre ++ k :: post)%list /\ dict_get weight k = Some wk /\
    choose_loop self a s keys = Ok k /\
    (running_sum weight s pre <= a)%Q /\
    (a < fadd (running_sum weight s pre) wk)%Q.
Proof.
  induction keys as [|k rest IH]; intros s Hent Hlo Hhi.
  - cbn in Hhi. now apply Qlt_not_le in Hhi.
  - destruct (Hent k) as (c & wk & Hc & Hcw & Hw); [left|].
    cbn in Hhi |- *. rewrite Hw in Hhi. cbn in Hhi. rewrite Hc, Hcw.
    destruct (Qlt_bool a (fadd s wk)) eqn:Hcmp.
    + apply Qlt_bool_true in Hcmp.
      exists [], k, wk, rest. cbn.
      replace (Qle_bool s a) with true by (symmetry; now apply Qle_bool_iff).
      auto.
    + rewrite andb_false_r. apply Qlt_bool_false in Hcmp.
      destruct (IH (fadd s wk)) as (pre & k' & wk' & post & -> & Hw' & Hrun & Hl & Hh);
        [intros; apply Hent; now right | exact Hcmp | exact Hhi |].
      exists (k :: pre), k', wk', post. cbn. rewrite Hw. cbn. auto.
Qed.

Lemma choose_loop_in_keys self a : forall keys s k,
  choose_loop self a s keys = Ok k -> k ∈ keys.
Proof.
  induction keys as [|k0 rest IH]; intros s k; cbn; [discriminate|].
  destruct (commands self !! k0) as [c|]; [|discriminate].
  destruct (cmd_weight c) as [wk|]; [|discriminate].
  destruct (_ && _).
  - intros [= ->]. left.
  - intros H. right. eapply IH, H.
Qed.

Section Rounding.
Context {laws : NumLaws ops}.

Lemma running_sum_ge weight : forall keys s,
  (forall k wk, dict_get weight k = Some wk -> (0 <= wk)%Q) ->
  (0 <= s)%Q -> (s <= running_sum weight s keys)%Q.
Proof.
  induction keys as [|k rest IH]; intros s Hpos Hs; cbn; [apply Qle_refl|].
  assert (Hw : (0 <= default 0%Q (dict_get weight k))%Q).
  { destruct (dict_get weight k) eqn:E; cbn; [eauto | apply Qle_refl]. }
  pose proof (fadd_ge_l s _ Hs Hw) as Hstep.
  eapply Qle_trans; [exact Hstep|]. apply IH; [exact Hpos|].
  exact (Qle_trans _ _ _ Hs Hstep).
Qed.

(** With non-negative weights that sum to zero no interval holds the draw
    zero, so the walk falls through to the [raise]. *)
Lemma choose_loop_zero weight self a : forall keys s,
  (forall k, k ∈ keys -> entry_ok weight self k) ->
  (forall k wk, dict_get weight k = Some wk -> (0 <= wk)%Q) ->
  (a == 0)%Q -> (0 <= s)%Q -> (running_sum weight s keys <= 0)%Q ->
  choose_loop self a s keys = Raise ValueError.
Proof.
  induction keys as [|k rest IH]; intros s Hent Hpos Ha Hs Hsum; [reflexivity|].
  destruct (Hent k) as (c & wk & Hc & Hcw & Hw); [left|].
  cbn in Hsum |- *. rewrite Hw in Hsum. cbn in Hsum. rewrite Hc, Hcw.
  assert (Hs1 : (0 <= fadd s wk)%Q).
  { eapply Qle_trans; [exact Hs|]. apply fadd_ge_l; eauto. }
  assert (Hle : (fadd s wk <= 0)%Q).
  { eapply Qle_trans; [|exact Hsum]. now apply running_sum_ge. }
  replace (Qlt_bool a (fadd s wk)) with false.
  - rewrite andb_false_r. apply IH; auto. intros; apply Hent; now right.
  - symmetry. apply Qlt_bool_false. rewrite Ha. exact Hle.
Qed.

End Rounding.

Lemma choose_unfold (a : addr) (self : StateObj) (w : World) :
  heap w !! a = Some self ->
  choose env a w =
    (choose_at env self (fmul (random env (rng_pos w)) (_weight_sum self)),
     set_rng_pos (S (rng_pos w)) w).
Proof.
  intros Hself. unfold choose, bind, random_random, deref, gets. cbn.
  now rewrite Hself.
Qed.

(** C4: for a state whose commands were imported, and a draw [x] with
    [0 <= x < total], [choose] returns a key [k] of the weight table and
    does not reach its [raise]: [k] is the first key whose half-open
    interval [[lo, lo + weight k)] holds the draw, where [lo] is the running
    sum over the keys before [k]; the total the draw is scaled by is the
    same running sum taken over the whole table, so the interval of the
    last key ends at the total.  This holds however [+] rounds. *)
Theorem choose_returns_key (argv : list cref) (self0 self : StateObj)
    (cls : StateClass Acc) (a : addr) (w : World) :
  class_of env self0 = Some cls ->
  _import_commands env argv self0 = (Ok tt, self) ->
  heap w !! a = Some self ->
  let x := fmul (random env (rng_pos w)) (_weight_sum self) in
  (0 <= x)%Q -> (x < _weight_sum self)%Q ->
  exists pre k wk post,
    dict_keys (weight cls) = (pre ++ k :: post)%list /\
    dict_get (weight cls) k = Some wk /\
    choose env a w = (Ok k, set_rng_pos (S (rng_pos w)) w) /\
    (running_sum (weight cls) 0%Q pre <= x)%Q /\
    (x < fadd (running_sum (weight cls) 0%Q pre) wk)%Q /\
    _weight_sum self = running_sum (weight cls) 0%Q (dict_keys (weight cls)) /\
    (post = [] -> fadd (running_sum (weight cls) 0%Q pre) wk = _weight_sum self).
Proof.
  intros Hcls Himp Hself x Hlo Hhi.
  destruct (_import_commands_ok _ _ _ _ Hcls Himp) as (Hcls' & Hsum & Hent).
  rewrite Hsum in Hhi.
  destruct (choose_loop_hits (weight cls) self x _ 0%Q Hent Hlo Hhi)
    as (pre & k & wk & post & Hkeys & Hwk & Hrun & Hl & Hh).
  exists pre, k, wk, post. repeat split; try assumption.
  - rewrite (choose_unfold _ _ _ Hself). unfold choose_at. rewrite Hcls'.
    fold x. now rewrite Hrun.
  - intros ->. rewrite Hsum, Hkeys, running_sum_app. cbn. now rewrite Hwk.
Qed.

(** C6: for a state whose commands were imported and whose weights are
    non-negative, if the weight table is empty or the total weight is zero
    then [choose] raises [ValueError], whatever the draw: it is a walk over
    the finite table, and it returns no name. *)
Theorem choose_fails_on_zero_weight (laws : NumLaws ops) (argv : list cref)
    (self0 self : StateObj) (cls : StateClass Acc) (a : addr) (w : World) :
  class_of env self0 = Some cls ->
  _import_commands env argv self0 = (Ok tt, self) ->
  heap w !! a = Some self ->
  (forall k wk, dict_get (weight cls) k = Some wk -> (0 <= wk)%Q) ->
  (weight cls = [] \/ (_weight_sum self == 0)%Q) ->
  choose env a w = (Raise ValueError, set_rng_pos (S (rng_pos w)) w).
Proof.
  intros Hcls Himp Hself Hpos Hzero.
  destruct (_import_commands_ok _ _ _ _ Hcls Himp) as (Hcls' & Hsum & Hent).
  rewrite (choose_unfold _ _ _ Hself). unfold choose_at. rewrite Hcls'.
  f_equal. destruct Hzero as [Hempty|Hzero].
  - now rewrite Hempty.
  - apply (choose_loop_zero (weight cls)); try assumption.
    + now apply fmul_zero_r.
    + apply Qle_refl.
    + rewrite <- Hsum, Hzero. apply Qle_refl.
Qed.

(** *** Registering a state *)

(** [add_state] on a [State] class: the new instance is registered under
    the lowered class name, over whatever was registered there, and stays
    registered when the import raises. *)
Lemma add_state_unfold (st : cref) (cls : StateClass Acc) (argv : list cref)
    (is_start : bool) (w : World) :
  state_class env st = Some cls -> s_is_State cls = true ->
  add_state env st argv is_start w =
    match _import_commands env argv (new_State st) with
    | (Ok _, self') =>
        (Ok tt, if is_start
                then set_state (Some (length (heap w))) (registered cls self' w)
                else registered cls self' w)
    | (Raise e, self') => (Raise e, registered cls self' w)
    | (OutOfFuel, self') => (OutOfFuel, registered cls self' w)
    end.
Proof.
  intros Hcls Hstate.
  unfold add_state, bind, alloc, modify, states_get, gets, at_obj, registered.
  rewrite Hcls. cbn. rewrite Hstate. cbn.
  rewrite lookup_insert_eq. cbn.
  rewrite (list_lookup_middle (heap w) [] (new_State st) (length (heap w)) eq_refl).
  destruct (_import_commands env argv (new_State st)) as [r self'].
  rewrite insert_app_r_alt by lia. rewrite Nat.sub_diag. cbn.
  destruct r as [[]| |]; try reflexivity.
  destruct is_start; [|reflexivity].
  cbn. rewrite lookup_insert_eq. reflexivity.
Qed.

Lemma add_state_rejects (st : cref) (argv : list cref) (is_start : bool) (w : World) :
  add_state env st argv is_start w =
    match state_class env st with
    | None => (Raise TypeError, w)
    | Some cls =>
        if s_is_State cls then add_state env st argv is_start w
        else (Raise ValueError, w)
    end.
Proof.
  unfold add_state at 1, bind.
  destruct (state_class env st) as [cls|] eqn:Hcls; cbn; [|reflexivity].
  destruct (s_is_State cls) eqn:Hs; [|reflexivity].
  unfold add_state, bind. rewrite Hcls. cbn. now rewrite Hs.
Qed.

Lemma registered_wf (cls : StateClass Acc) (self' : StateObj) (w : World) :
  registry_wf w -> registry_wf (registered cls self' w).
Proof.
  intros [Hlive Hinj]. unfold registered. split; cbn.
  - intros n a. rewrite length_app. cbn.
    destruct (decide (lower (s_name cls) = n)) as [<-|Hne].
    + rewrite lookup_insert_eq. intros [= <-]. lia.
    + rewrite lookup_insert_ne by exact Hne. intros H%Hlive. lia.
  - intros n1 n2 a.
    destruct (decide (lower (s_name cls) = n1)) as [<-|Hne1];
      destruct (decide (lower (s_name cls) = n2)) as [<-|Hne2];
      rewrite ?lookup_insert_eq, ?lookup_insert_ne by assumption.
    + reflexivity.
    + intros [= <-] H%Hlive. lia.
    + intros H%Hlive [= <-]. lia.
    + apply Hinj.
Qed.

(** Every automaton built by [DFA.__init__] and calls of [add_state] has a
    well-formed registry. *)
Lemma add_state_registry_wf (st : cref) (argv : list cref) (is_start : bool)
    (w : World) :
  registry_wf w -> registry_wf (snd (add_state env st argv is_start w)).
Proof.
  intros Hwf. rewrite add_state_rejects.
  destruct (state_class env st) as [cls|] eqn:Hcls; [|exact Hwf].
  destruct (s_is_State cls) eqn:Hs; [|exact Hwf].
  rewrite (add_state_unfold _ _ _ _ _ Hcls Hs).
  destruct (_import_commands env argv (new_State st)) as [[[]| |] self']; cbn;
    try (now apply registered_wf).
  destruct is_start; [|now apply registered_wf].
  apply (registered_wf cls self') in Hwf. exact Hwf.
Qed.

Lemma _set_weight_outcome (self : StateObj) (cls : StateClass Acc) :
  class_of env self = Some cls ->
  ((forall k, k ∈ dict_keys (weight cls) -> is_Some (commands self !! k)) ->
     exists self', _set_weight env self = (Ok tt, self')) /\
  ((exists k, k ∈ dict_keys (weight cls) /\ commands self !! k = None) ->
     fst (_set_weight env self) = Raise ValueError).
Proof.
  intros Hcls. unfold _set_weight, bind, modify, get. cbn.
  unfold class_of in *. cbn. rewrite Hcls. cbn.
  apply (_set_weight_loop_outcome (weight cls) (dict_keys (weight cls))
           (set__weight_sum 0%Q self)).
  intros k Hk. now apply dict_get_keys.
Qed.

Lemma _import_commands_succeeds (st : cref) (cls : StateClass Acc) (argv : list cref) :
  state_class env st = Some cls ->
  Forall (valid_command env) argv ->
  (forall k, k ∈ dict_keys (weight cls) -> k ∈ map (cname_of env) argv) ->
  exists self', _import_commands env argv (new_State st) = (Ok tt, self').
Proof.
  intros Hcls Hvalid Hkeys. unfold _import_commands, bind.
  rewrite _import_loop_ok by exact Hvalid.
  apply (_set_weight_outcome _ cls); [exact Hcls|].
  intros k Hk. cbn. apply import_into_lookup. right. now apply Hkeys.
Qed.

Lemma _set_weight_loop_class weight keys : forall self self',
  _set_weight_loop weight keys self = (Ok tt, self') ->
  forall k, cmd_class <$> commands self' !! k = cmd_class <$> commands self !! k.
Proof.
  induction keys as [|wname rest IH]; intros self self' Hrun k.
  - cbn in Hrun. now injection Hrun as <-.
  - cbn in Hrun. unfold bind, get in Hrun.
    destruct (commands self !! wname) as [c|] eqn:Hc; [|discriminate].
    destruct (dict_get weight wname) as [w|]; [|discriminate].
    cbn in Hrun. rewrite (IH _ _ Hrun k). cbn.
    destruct (decide (wname = k)) as [<-|Hne].
    + now rewrite lookup_insert_eq, Hc.
    + now rewrite lookup_insert_ne.
Qed.

Lemma import_into_other argv : forall m k,
  k ∉ map (cname_of env) argv -> import_into env m argv !! k = m !! k.
Proof.
  induction argv as [|a rest IH]; intros m k Hk; [reflexivity|].
  unfold import_into in *. cbn in *. apply not_elem_of_cons in Hk as [Hne Hk].
  rewrite IH by exact Hk. now apply lookup_insert_ne.
Qed.

(** Of several entries with one lowered name the last is the one kept. *)
Lemma import_into_last m pre a post :
  cname_of env a ∉ map (cname_of env) post ->
  import_into env m (pre ++ a :: post)%list !! cname_of env a = Some (new_Command a).
Proof.
  intros Hlast. unfold import_into. rewrite foldl_app. cbn.
  fold (import_into env (<[cname_of env a := new_Command a]>
                           (foldl (fun m a => <[cname_of env a := new_Command a]> m) m pre))
                    post).
  rewrite import_into_other by exact Hlast. apply lookup_insert_eq.
Qed.

Lemma _import_commands_classes argv self0 self :
  Forall (valid_command env) argv ->
  _import_commands env argv self0 = (Ok tt, self) ->
  forall k, cmd_class <$> commands self !! k
            = cmd_class <$> import_into env (commands self0) argv !! k.
Proof.
  intros Hvalid Hrun k. unfold _import_commands, bind in Hrun.
  rewrite _import_loop_ok in Hrun by exact Hvalid.
  unfold _set_weight, bind, modify, get in Hrun. cbn in Hrun.
  destruct (class_of env _) as [cls|]; [|discriminate]. cbn in Hrun.
  now rewrite (_set_weight_loop_class _ _ _ _ Hrun k).
Qed.

(** C5, as the code has it.  [add_state] on a [State] class imports the
    commands and
    - raises at the first entry that is not a [Command] class ([TypeError]
      from [issubclass] for a non-class, [KeyError] otherwise);
    - raises [ValueError] when the entries are all [Command] classes and a
      key of the weight table is not the lowered name of any of them;
    - returns when the entries are all [Command] classes and they cover the
      weight table, also when two entries have the same lowered name: no
      exception is raised for the collision, and the name is bound to an
      instance of the last entry that has it.
    All of this happens inside [add_state], hence before any run. *)
Theorem add_state_import_outcome (st : cref) (cls : StateClass Acc)
    (argv : list cref) (is_start : bool) (w : World) :
  state_class env st = Some cls -> s_is_State cls = true ->
  (forall pre a post, argv = (pre ++ a :: post)%list ->
     Forall (valid_command env) pre -> ~ valid_command env a ->
     fst (add_state env st argv is_start w) = Raise (import_error env a)) /\
  (Forall (valid_command env) argv ->
     (exists k, k ∈ dict_keys (weight cls) /\ k ∉ map (cname_of env) argv) ->
     fst (add_state env st argv is_start w) = Raise ValueError) /\
  (Forall (valid_command env) argv ->
     (forall k, k ∈ dict_keys (weight cls) -> k ∈ map (cname_of env) argv) ->
     exists (w' : World) (self' : StateObj),
       add_state env st argv is_start w = (Ok tt, w') /\
       heap w' !! length (heap w) = Some self' /\
       forall pre a post, argv = (pre ++ a :: post)%list ->
         cname_of env a ∉ map (cname_of env) post ->
         cmd_class <$> commands self' !! cname_of env a = Some a).
Proof.
  intros Hcls Hstate. rewrite (add_state_unfold _ _ _ _ _ Hcls Hstate).
  repeat split.
  - intros pre a post -> Hpre Hbad. unfold _import_commands, bind.
    now rewrite _import_loop_rejects.
  - intros Hvalid (k & Hk & Hmiss). unfold _import_commands, bind.
    rewrite _import_loop_ok by exact Hvalid.
    set (self1 := set_commands _ _).
    assert (Hfail : fst (_set_weight env self1) = Raise ValueError).
    { apply (_set_weight_outcome self1 cls); [exact Hcls|].
      exists k. split; [exact Hk|]. subst self1. cbn.
      apply eq_None_not_Some. rewrite import_into_lookup.
      intros [[? Habs]|Hin]; [|contradiction].
      rewrite lookup_empty in Habs. discriminate. }
    destruct (_set_weight env self1) as [r self']. cbn in Hfail. now subst r.
  - intros Hvalid Hkeys.
    destruct (_import_commands_succeeds st cls argv Hcls Hvalid Hkeys)
      as [self' Himp].
    rewrite Himp.
    exists (if is_start
            then set_state (Some (length (heap w))) (registered cls self' w)
            else registered cls self' w), self'.
    split; [reflexivity|]. split.
    + destruct is_start; unfold registered; cbn; now apply list_lookup_middle.
    + intros pre a post -> Hlast.
      rewrite (_import_commands_classes _ _ _ Hvalid Himp).
      now rewrite import_into_last.
Qed.

(** C10: [add_state] with a [State] class whose lowered name is already
    registered returns without an exception (the commands being acceptable
    as for any registration) and binds the name to the new instance; the
    instance registered before is still in the heap, unchanged, under no
    name.  When it was the current state and [is_start] is not given, it
    stays the current state. *)
Theorem add_state_rebinds (st : cref) (cls : StateClass Acc) (argv : list cref)
    (w : World) (a_old : addr) :
  state_class env st = Some cls -> s_is_State cls = true ->
  Forall (valid_command env) argv ->
  (forall k, k ∈ dict_keys (weight cls) -> k ∈ map (cname_of env) argv) ->
  registry_wf w ->
  states (dfa w) !! lower (s_name cls) = Some a_old ->
  forall is_start : bool, exists (w' : World) (self' : StateObj),
    add_state env st argv is_start w = (Ok tt, w') /\
    states (dfa w') !! lower (s_name cls) = Some (length (heap w)) /\
    length (heap w) <> a_old /\
    heap w' !! length (heap w) = Some self' /\ st_class self' = st /\
    is_Some (heap w !! a_old) /\ heap w' !! a_old = heap w !! a_old /\
    (forall n, states (dfa w') !! n <> Some a_old) /\
    (is_start = false -> state (dfa w) = Some a_old ->
       state (dfa w') = Some a_old).
Proof.
  intros Hcls Hstate Hvalid Hkeys [Hlive Hinj] Hold is_start.
  pose proof (Hlive _ _ Hold) as Hlt.
  destruct (_import_commands_succeeds st cls argv Hcls Hvalid Hkeys) as [self' Himp].
  pose proof (_import_loop_class argv (new_State st)) as Hclass.
  assert (Hst : st_class self' = st).
  { unfold _import_commands, bind in Himp.
    destruct (_import_loop env argv (new_State st)) as [[[]| |] self1];
      try discriminate.
    cbn in Hclass. unfold _set_weight, bind, modify, get in Himp. cbn in Himp.
    destruct (class_of env (set__weight_sum 0%Q self1)) as [cls1|]; [|discriminate].
    cbn in Himp. apply _set_weight_loop_ok in Himp as (Hc & _). cbn in Hc.
    congruence. }
  exists (if is_start
          then set_state (Some (length (heap w))) (registered cls self' w)
          else registered cls self' w), self'.
  rewrite (add_state_unfold _ _ _ _ _ Hcls Hstate), Himp.
  assert (Hreg : forall n, states (dfa (registered cls self' w)) !! n <> Some a_old).
  { intros n. unfold registered. cbn.
    destruct (decide (lower (s_name cls) = n)) as [<-|Hne].
    - rewrite lookup_insert_eq. intros [= ?]. lia.
    - rewrite lookup_insert_ne by exact Hne. intros Hn.
      apply Hne. eapply Hinj; eassumption. }
  assert (Hheap : heap (registered cls self' w) !! a_old = heap w !! a_old).
  { unfold registered. cbn. now apply lookup_app_l. }
  assert (Hnew : heap (registered cls self' w) !! length (heap w) = Some self').
  { unfold registered. cbn. now apply list_lookup_middle. }
  assert (Hname : states (dfa (registered cls self' w)) !! lower (s_name cls)
                  = Some (length (heap w))).
  { unfold registered. cbn. apply lookup_insert_eq. }
  split; [reflexivity|].
  destruct is_start; cbn;
    (repeat split;
     [ exact Hname | lia | exact Hnew | exact Hst
     | now apply lookup_lt_is_Some | exact Hheap | exact Hreg | ]).
  - discriminate.
  - intros _ Hcur. exact Hcur.
Qed.

(** *** The step *)

Ltac step_cases :=
  repeat match goal with
         | |- context [let (_, _) := ?m in _] =>
             destruct m as [[?| |] ?]; cbn; try reflexivity
         end.

Lemma _next_step_phases (w : World) :
  _next_step env w =
    (x <- step_until_executed env ;;
     call_hook env (snd x) ("after_" ++ fst x)) w.
Proof.
  unfold _next_step, step_until_executed, select, bind, ret. step_cases.
Qed.

Lemma dict_get_Some_keys {V} (d : list (string * V)) (k : string) (v : V) :
  dict_get d k = Some v -> k ∈ dict_keys d.
Proof.
  induction d as [|[k' v'] d IH]; cbn; [discriminate|].
  destruct (String.eqb k' k) eqn:E.
  - apply String.eqb_eq in E as ->. intros _. left.
  - intros H. right. now apply IH.
Qed.

Lemma select_unfold (w : World) (a : addr) :
  state (dfa w) = Some a -> select env w = choose env a w.
Proof.
  intros Hcur. unfold select, bind, current_state, gets. cbn. now rewrite Hcur.
Qed.

(** A name [choose] returns is a key of the weight table of the class of
    the instance it was called on. *)
Lemma choose_in_table (w w' : World) (a : addr) (self : StateObj)
    (cls : StateClass Acc) (cname : string) :
  heap w !! a = Some self -> class_of env self = Some cls ->
  choose env a w = (Ok cname, w') -> cname ∈ dict_keys (weight cls).
Proof.
  intros Hself Hcls. rewrite (choose_unfold _ _ _ Hself). unfold choose_at.
  rewrite Hcls. intros [= Hrun _]. eapply choose_loop_in_keys, Hrun.
Qed.

(** [attr_list] is [dir] of the state that is current when the step
    starts, and the chosen name comes from its weight table. *)
Lemma step_until_executed_start (w w3 : World) (a0 : addr) (self : StateObj)
    (cls0 : StateClass Acc) (cname : string) (attrs : list string) :
  state (dfa w) = Some a0 -> heap w !! a0 = Some self ->
  class_of env self = Some cls0 ->
  step_until_executed env w = (Ok (cname, attrs), w3) ->
  attrs = dict_keys (s_methods cls0) /\ cname ∈ dict_keys (weight cls0).
Proof.
  intros Hcur Hself Hcls. unfold step_until_executed. unfold bind at 1.
  rewrite (select_unfold _ _ Hcur).
  destruct (choose env a0 w) as [[c| |] w1] eqn:Hch; try discriminate.
  pose proof (choose_in_table _ _ _ _ _ _ Hself Hcls Hch) as Hin.
  rewrite (choose_unfold _ _ _ Hself) in Hch. injection Hch as _ <-.
  unfold bind at 1, current_state at 1, bind, gets, from_option. cbn.
  rewrite Hcur. cbn. unfold dir, deref, bind, gets, from_option. cbn.
  rewrite Hself. cbn. rewrite Hcls. cbn. unfold ret.
  intros Hrun.
  repeat match type of Hrun with
         | context [let (_, _) := ?m in _] =>
             destruct m as [[?| |] ?]; cbn in Hrun; try discriminate
         end.
  injection Hrun as <- <- _. auto.
Qed.

Lemma switch_state_to_registered (name : string) (a : addr) (w : World) :
  states (dfa w) !! name = Some a ->
  switch_state_to name w = (Ok tt, set_state (Some a) w).
Proof.
  intros Hreg. unfold switch_state_to, bind, gets. now rewrite Hreg.
Qed.

(** The engine asks the command for [do]; a command class that defines
    [execute] only has no such attribute. *)
Lemma get_do_missing (w : World) (a : addr) (self : StateObj) (c : CommandObj)
    (ccls : CommandClass Acc) (cname : string) :
  state (dfa w) = Some a -> heap w !! a = Some self ->
  commands self !! cname = Some c ->
  command_class env (cmd_class c) = Some ccls -> c_do ccls = None ->
  get_do env cname w = (Raise AttributeError, w).
Proof.
  intros Hcur Hself Hc Hccls Hdo.
  unfold get_do, bind, current_state, deref, gets, from_option. cbn.
  rewrite Hcur. cbn. rewrite Hself. cbn. rewrite Hc. cbn. rewrite Hccls. cbn.
  now rewrite Hdo.
Qed.

(** C8: let a step start in the state instance [a0], of class [cls0], and
    let the pre-hook and the command return without changing which
    instance is current.  If the post-hook of [cls0] for the chosen command
    ends by [switch_state_to X], with [X] registered, then the step is
    completed by that post-hook (the one of the state current at the start
    of the step) and returns; afterwards the current state is the instance
    registered under [X], so the selection of the next step is [choose] on
    that instance and returns only keys of its weight table. *)
Theorem post_hook_switch_applies_to_next_step
    (w w3 w4 : World) (a0 ax : addr) (self self3 : StateObj)
    (cls0 : StateClass Acc) (cname X : string) (attrs : list string)
    (hook g : Hook Acc) :
  state (dfa w) = Some a0 -> heap w !! a0 = Some self ->
  class_of env self = Some cls0 ->
  step_until_executed env w = (Ok (cname, attrs), w3) ->
  state (dfa w3) = Some a0 -> heap w3 !! a0 = Some self3 ->
  class_of env self3 = Some cls0 ->
  dict_get (s_methods cls0) ("after_" ++ cname) = Some hook ->
  hook a0 w3 = (g a0 ;; switch_state_to X) w3 ->
  g a0 w3 = (Ok tt, w4) -> states (dfa w4) !! X = Some ax ->
  let w5 := set_state (Some ax) w4 in
  _next_step env w = hook a0 w3 /\
  _next_step env w = (Ok tt, w5) /\
  state (dfa w5) = Some ax /\
  select env w5 = choose env ax w5 /\
  (forall selfx clsx c' w', heap w5 !! ax = Some selfx ->
     class_of env selfx = Some clsx ->
     select env w5 = (Ok c', w') -> c' ∈ dict_keys (weight clsx)).
Proof.
  intros Hcur Hself Hcls Hrun Hcur3 Hself3 Hcls3 Hhook Hbody Hg HX w5.
  destruct (step_until_executed_start _ _ _ _ _ _ _ Hcur Hself Hcls Hrun)
    as [-> _].
  assert (Hstep : _next_step env w = hook a0 w3).
  { rewrite _next_step_phases. unfold bind at 1. rewrite Hrun. cbn.
    unfold call_hook. rewrite bool_decide_eq_true_2
      by (eapply dict_get_Some_keys, Hhook).
    unfold current_state, getattr, deref, gets, from_option, bind. cbn.
    rewrite Hcur3. cbn. rewrite Hself3. cbn. rewrite Hcls3. cbn.
    now rewrite Hhook. }
  assert (Hend : hook a0 w3 = (Ok tt, w5)).
  { rewrite Hbody. unfold bind. rewrite Hg.
    now apply switch_state_to_registered. }
  split; [exact Hstep|]. split; [now rewrite Hstep|].
  split; [reflexivity|].
  assert (Hsel : select env w5 = choose env ax w5) by now apply select_unfold.
  split; [exact Hsel|].
  intros selfx clsx c' w' Hx Hclsx. rewrite Hsel.
  now apply choose_in_table with (self := selfx).
Qed.

(** *** The run loops *)

Lemma nsteps_S_Ok (k : nat) (w w1 w' : World) :
  _next_step env w = (Ok tt, w1) ->
  nsteps env k w1 = (Ok tt, w') -> nsteps env (S k) w = (Ok tt, w').
Proof. intros Hstep Hrest. cbn. unfold bind. now rewrite Hstep. Qed.

Lemma nsteps_S_inv (k : nat) (w w' : World) :
  nsteps env (S k) w = (Ok tt, w') ->
  exists w1, _next_step env w = (Ok tt, w1) /\ nsteps env k w1 = (Ok tt, w').
Proof.
  cbn. unfold bind.
  destruct (_next_step env w) as [[[]| |] w1]; try discriminate. eauto.
Qed.

Lemma nsteps_last (k : nat) : forall (w w' : World),
  nsteps env (S k) w = (Ok tt, w') ->
  exists w_last, nsteps env k w = (Ok tt, w_last) /\
                 _next_step env w_last = (Ok tt, w').
Proof.
  induction k as [|k IH]; intros w w' Hrun.
  - apply nsteps_S_inv in Hrun as (w1 & Hstep & Hrest).
    cbn in Hrest. injection Hrest as <-. exists w. split; [reflexivity | exact Hstep].
  - apply nsteps_S_inv in Hrun as (w1 & Hstep & Hrest).
    apply IH in Hrest as (w_last & Hk & Hlast).
    exists w_last. split; [|exact Hlast]. eapply nsteps_S_Ok; eassumption.
Qed.

(** The counting loop with [m] steps to go, when the bound it re-reads
    before every step is still [N]. *)
Lemma _drive_counter_loop_exact (N : Z) (m : nat) :
  forall (fuel : nat) (count : Z) (w : World),
  (count + Z.of_nat m = N)%Z -> (m < fuel)%nat ->
  nexec (dfa w) = Some N ->
  (forall k w', (k < m)%nat -> nsteps env (S k) w = (Ok tt, w') ->
                nexec (dfa w') = Some N) ->
  _drive_counter_loop env fuel count w = nsteps env m w.
Proof.
  induction m as [|m IH]; intros fuel count w Hcount Hfuel Hn Hkeep;
    (destruct fuel as [|fuel]; [lia|]); cbn; unfold bind at 1, gets;
    rewrite Hn; cbn.
  - replace (count <? N)%Z with false by (symmetry; apply Z.ltb_ge; lia).
    reflexivity.
  - replace (count <? N)%Z with true by (symmetry; apply Z.ltb_lt; lia).
    unfold bind. destruct (_next_step env w) as [[[]| |] w1] eqn:Hstep;
      try reflexivity.
    apply IH; [lia | lia | |].
    + apply (Hkeep 0%nat); [lia|]. cbn. unfold bind. now rewrite Hstep.
    + intros k w' Hk Hrun. apply (Hkeep (S k)); [lia|].
      eapply nsteps_S_Ok; eassumption.
Qed.

(** The timed loop, when the clock first reaches the duration after [n]
    steps. *)
Lemma _drive_time_loop_stops (D begin_at : Q) (n : nat) :
  forall (fuel : nat) (w w_n : World),
  (n < fuel)%nat ->
  nsteps env n w = (Ok tt, w_n) ->
  (forall k w', (k < n)%nat -> nsteps env k w = (Ok tt, w') ->
     duration (dfa w') = Some D /\ (clock w' - begin_at < D)%Q) ->
  duration (dfa w_n) = Some D -> (D <= clock w_n - begin_at)%Q ->
  _drive_time_loop env fuel begin_at (clock w) w = (Ok tt, w_n).
Proof.
  induction n as [|n IH]; intros fuel w w_n Hfuel Hrun Hbefore Hdur Hend;
    (destruct fuel as [|fuel]; [lia|]); cbn; unfold bind at 1, gets.
  - cbn in Hrun. injection Hrun as <-. rewrite Hdur. cbn.
    replace (Qlt_bool _ _) with false by (symmetry; now apply Qlt_bool_false).
    reflexivity.
  - destruct (Hbefore 0%nat w) as [Hd Hlt]; [lia | reflexivity |].
    rewrite Hd. cbn.
    replace (Qlt_bool _ _) with true by (symmetry; now apply Qlt_bool_true).
    apply nsteps_S_inv in Hrun as (w1 & Hstep & Hrest).
    unfold bind, time_time, gets. rewrite Hstep.
    apply IH; [lia | exact Hrest | | exact Hdur | exact Hend].
    intros k w' Hk Hrun. apply (Hbefore (S k)); [lia|].
    eapply nsteps_S_Ok; eassumption.
Qed.

(** C3, as the code has it: in a count-bounded run with bound [N >= 0],
    as long as no completed step changes [nexec], [drive_machine] is
    exactly [N] calls of [_next_step] in a row (and stops at the first one
    that raises).  The bound is read from the automaton before every step,
    so the statement needs the steps to leave it alone. *)
Theorem drive_machine_counts_steps (N : Z) (a : addr) (w : World) :
  nexec (dfa w) = Some N -> duration (dfa w) = None ->
  state (dfa w) = Some a -> (0 <= N)%Z ->
  (forall k w', (k < Z.to_nat N)%nat -> nsteps env (S k) w = (Ok tt, w') ->
                nexec (dfa w') = Some N) ->
  forall fuel : nat, (Z.to_nat N < fuel)%nat ->
  drive_machine env fuel w = nsteps env (Z.to_nat N) w.
Proof.
  intros Hn Hd Hcur Hpos Hkeep fuel Hfuel.
  unfold drive_machine, bind, gets. cbn. rewrite Hn, Hd, Hcur. cbn.
  unfold _drive_counter_machine.
  apply (_drive_counter_loop_exact N); [lia | exact Hfuel | exact Hn | exact Hkeep].
Qed.

(** C9: a duration-bounded run with [D > 0] reads the clock once, then
    begins a step whatever else happens, and reads the clock again only
    after a step has returned.  If the steps return and the elapsed time,
    below [D] after each of the first [n - 1] steps, is at least [D] after
    the [n]-th, then [drive_machine] returns after exactly these [n] steps
    given fuel for them; [n] is at least one, the last step began with less
    than [D] elapsed, and the run overruns [D] by less than the time the
    last step took. *)
Theorem drive_machine_duration_bounded (D : Q) (a : addr) (n : nat)
    (w w_n : World) :
  duration (dfa w) = Some D -> state (dfa w) = Some a -> (0 < D)%Q ->
  nsteps env n w = (Ok tt, w_n) ->
  (forall k w', (1 <= k < n)%nat -> nsteps env k w = (Ok tt, w') ->
     duration (dfa w') = Some D /\ (clock w' - clock w < D)%Q) ->
  duration (dfa w_n) = Some D -> (D <= clock w_n - clock w)%Q ->
  (forall fuel : nat,
     drive_machine env (S fuel) w =
       (_next_step env ;;
        end_at <- time_time ;;
        _drive_time_loop env fuel (clock w) end_at) w) /\
  (1 <= n)%nat /\
  (forall fuel : nat, (n < fuel)%nat -> drive_machine env fuel w = (Ok tt, w_n)) /\
  exists w_last : World,
    nsteps env (n - 1) w = (Ok tt, w_last) /\
    _next_step env w_last = (Ok tt, w_n) /\
    (clock w_last - clock w < D)%Q /\
    (clock w_n - clock w < D + (clock w_n - clock w_last))%Q.
Proof.
  intros Hd Hcur Hpos Hrun Hbefore Hdn Hend.
  assert (Hzero : (clock w - clock w < D)%Q) by (ring_simplify (clock w - clock w)%Q; exact Hpos).
  assert (Hdrive : forall fuel, drive_machine env fuel w
                                = _drive_time_loop env fuel (clock w) (clock w) w).
  { intros fuel. unfold drive_machine, bind, gets. cbn. rewrite Hd, Hcur. cbn.
    rewrite andb_false_r. reflexivity. }
  assert (Hn : (1 <= n)%nat).
  { destruct n as [|n]; [|lia]. cbn in Hrun. injection Hrun as <-.
    now apply Qlt_not_le in Hzero. }
  assert (Hall : forall k w', (k < n)%nat -> nsteps env k w = (Ok tt, w') ->
                   duration (dfa w') = Some D /\ (clock w' - clock w < D)%Q).
  { intros [|k] w' Hk Hk_run.
    - cbn in Hk_run. injection Hk_run as <-. auto.
    - apply (Hbefore (S k)); [lia | exact Hk_run]. }
  split; [|split; [exact Hn|split]].
  - intros fuel. rewrite Hdrive. cbn. unfold bind at 1, gets. rewrite Hd. cbn.
    replace (Qlt_bool _ _) with true by (symmetry; now apply Qlt_bool_true).
    reflexivity.
  - intros fuel Hfuel. rewrite Hdrive.
    now apply (_drive_time_loop_stops D (clock w) n).
  - destruct n as [|n]; [lia|]. cbn [Nat.sub]. rewrite Nat.sub_0_r.
    destruct (nsteps_last _ _ _ Hrun) as (w_last & Hk & Hlast).
    exists w_last. destruct (Hall n w_last) as [_ Hlt]; [lia | exact Hk |].
    repeat split; [exact Hk | exact Hlast | exact Hlt |]. lra.
Qed.

(** *** Switching the current state *)

(** C7: [switch_state_to] on a name that is not registered raises
    [DoesNotFound] and leaves the whole world, hence the current state,
    as it was; on a registered name it returns and the current state is the
    instance registered under that name, nothing else being changed. *)
Theorem switch_state_to_spec (name : string) (w : World) :
  (states (dfa w) !! name = None ->
     switch_state_to name w = (Raise DoesNotFound, w)) /\
  (forall a : addr, states (dfa w) !! name = Some a ->
     exists w', switch_state_to name w = (Ok tt, w') /\
       state (dfa w') = Some a /\
       w' = set_state (states (dfa w) !! name) w).
Proof.
  split.
  - intros Hnone. unfold switch_state_to, bind, gets. now rewrite Hnone.
  - intros a Hsome. exists (set_state (Some a) w).
    unfold switch_state_to, bind, gets. rewrite Hsome. now cbn.
Qed.

(** *** Configuration checks of [drive_machine] *)

(** C2, as the code has it: with neither bound configured [drive_machine]
    raises [ValueError]; with a bound configured and no current state it
    raises [NotInitializedError]; both before any step, the world
    unchanged.  With both bounds configured and a current state it raises
    neither: it is the duration-bounded loop. *)
Theorem drive_machine_configuration (fuel : nat) (w : World) :
  (nexec (dfa w) = None -> duration (dfa w) = None ->
     drive_machine env fuel w = (Raise ValueError, w)) /\
  ((nexec (dfa w) <> None \/ duration (dfa w) <> None) ->
     state (dfa w) = None ->
     drive_machine env fuel w = (Raise NotInitializedError, w)) /\
  (forall (n : Z) (d : Q) (a : addr),
     nexec (dfa w) = Some n -> duration (dfa w) = Some d ->
     state (dfa w) = Some a ->
     drive_machine env fuel w = _drive_time_machine env fuel w).
Proof.
  unfold drive_machine, bind, gets. cbn. repeat split.
  - intros -> ->. reflexivity.
  - intros Hcfg ->.
    destruct (nexec (dfa w)) as [n|], (duration (dfa w)) as [d|]; cbn;
      try reflexivity.
    destruct Hcfg as [H|H]; now elim H.
  - intros n d a -> -> ->. reflexivity.
Qed.

End Properties.

(** ** Further properties of the engine *)

Section MoreProperties.
Context {ops : NumOps} {Acc : Type}.
Variable env : Env Acc.

Local Open Scope py_scope.

Abbreviation World := (World Acc).

(** *** The step, phase by phase *)

Ltac phase_cases :=
  repeat match goal with
         | |- context [let (_, _) := ?m in _] =>
             destruct m as [[?| |] ?]; cbn; try reflexivity
         end.

Lemma _next_step_by_phases (w : World) :
  _next_step env w =
    (cname <- select env ;;
     attrs <- before_phase env cname ;;
     execute_phase env cname ;;
     call_hook env attrs ("after_" ++ cname)) w.
Proof.
  unfold _next_step, select, before_phase, execute_phase, bind, ret. phase_cases.
Qed.

Lemma step_until_executed_by_phases (w : World) :
  step_until_executed env w =
    (cname <- select env ;;
     attrs <- before_phase env cname ;;
     execute_phase env cname ;;
     ret (cname, attrs)) w.
Proof.
  unfold step_until_executed, select, before_phase, execute_phase, bind, ret.
  phase_cases.
Qed.

(** Once the command's [do] is found, the rest of the step is: call it on
    the accumulator as it is then, assign what it returns, run the
    post-hook. *)
Lemma _next_step_from_do (w w1 w2 : World) (cname : string)
    (attrs : list string) (do : Method Acc) :
  select env w = (Ok cname, w1) ->
  before_phase env cname w1 = (Ok attrs, w2) ->
  get_do env cname w2 = (Ok do, w2) ->
  _next_step env w =
    (r <- do (_state_ret (dfa w2)) ;;
     modify (set__state_ret r) ;;
     call_hook env attrs ("after_" ++ cname)) w2.
Proof.
  intros Hsel Hbefore Hdo. rewrite _next_step_by_phases.
  unfold bind at 1. rewrite Hsel. unfold bind at 1. rewrite Hbefore.
  unfold execute_phase. unfold bind at 1 2. rewrite Hdo.
  unfold bind, gets, modify. cbn.
  destruct (do (_state_ret (dfa w2)) w2) as [[r| |] w3]; reflexivity.
Qed.

(** [get_do] reads; it leaves the world as it is. *)
Lemma get_do_world (w w' : World) (cname : string) (do : Method Acc) :
  get_do env cname w = (Ok do, w') -> w' = w.
Proof.
  unfold get_do, current_state, deref, gets, from_option, bind, ret, raise.
  repeat match goal with
         | |- context [match ?o with Some _ => _ | None => _ end] =>
             destruct o; cbn
         end; congruence.
Qed.

Lemma execute_phase_inv (w w3 : World) (cname : string) :
  execute_phase env cname w = (Ok tt, w3) ->
  exists (do : Method Acc) (r : option Acc) (w' : World),
    get_do env cname w = (Ok do, w) /\
    do (_state_ret (dfa w)) w = (Ok r, w') /\
    w3 = set__state_ret r w'.
Proof.
  unfold execute_phase. unfold bind at 1.
  destruct (get_do env cname w) as [[do| |] w0] eqn:Hdo; try discriminate.
  pose proof (get_do_world _ _ _ _ Hdo) as Hw. subst w0.
  unfold bind, gets, modify. cbn.
  destruct (do (_state_ret (dfa w)) w) as [[r| |] w'] eqn:Hcall; try discriminate.
  intros [= <-]. exists do, r, w'. auto.
Qed.

Lemma dict_get_None_keys {V} (d : list (string * V)) (k : string) :
  dict_get d k = None <-> k ∉ dict_keys d.
Proof.
  split.
  - intros Hnone Hin. apply dict_get_keys in Hin as [v Hv]. congruence.
  - intros Hout. destruct (dict_get d k) as [v|] eqn:E; [|reflexivity].
    elim Hout. eapply dict_get_Some_keys, E.
Qed.

Lemma call_hook_absent (w : World) (attrs : list string) (name : string) :
  name ∉ attrs -> call_hook env attrs name w = (Ok tt, w).
Proof.
  intros Hout. unfold call_hook. now rewrite bool_decide_eq_false_2.
Qed.

Lemma call_hook_present (w : World) (attrs : list string) (name : string)
    (a : addr) (self : StateObj) (cls : StateClass Acc) :
  name ∈ attrs -> state (dfa w) = Some a -> heap w !! a = Some self ->
  class_of env self = Some cls ->
  call_hook env attrs name w =
    match dict_get (s_methods cls) name with
    | Some hook => hook a w
    | None => (Raise AttributeError, w)
    end.
Proof.
  intros Hin Hcur Hself Hcls. unfold call_hook.
  rewrite bool_decide_eq_true_2 by exact Hin.
  unfold current_state, getattr, deref, gets, from_option, bind. cbn.
  rewrite Hcur. cbn. rewrite Hself. cbn. rewrite Hcls. cbn.
  destruct (dict_get (s_methods cls) name); reflexivity.
Qed.

Lemma before_phase_unfold (w : World) (cname : string) (a : addr)
    (self : StateObj) (cls : StateClass Acc) :
  state (dfa w) = Some a -> heap w !! a = Some self ->
  class_of env self = Some cls ->
  before_phase env cname w =
    (call_hook env (dict_keys (s_methods cls)) ("before_" ++ cname) ;;
     ret (dict_keys (s_methods cls))) w.
Proof.
  intros Hcur Hself Hcls.
  unfold before_phase, current_state, dir, deref, gets, from_option, bind. cbn.
  rewrite Hcur. cbn. rewrite Hself. cbn. now rewrite Hcls.
Qed.

(** Hooks are optional: in a state that defines neither hook for the
    chosen command, a step is the selection, one call of the command's [do]
    on the accumulator the step started with, and the assignment of what it
    returned; nothing else changes. *)
Theorem step_without_hooks (w w1 w2 : World) (a : addr) (self : StateObj)
    (cls : StateClass Acc) (cname : string) (do : Method Acc) (r : option Acc) :
  state (dfa w) = Some a -> heap w !! a = Some self ->
  class_of env self = Some cls ->
  choose env a w = (Ok cname, w1) ->
  dict_get (s_methods cls) ("before_" ++ cname) = None ->
  dict_get (s_methods cls) ("after_" ++ cname) = None ->
  get_do env cname w1 = (Ok do, w1) ->
  do (_state_ret (dfa w)) w1 = (Ok r, w2) ->
  _next_step env w = (Ok tt, set__state_ret r w2).
Proof.
  intros Hcur Hself Hcls Hch Hno_before Hno_after Hdo Hcall.
  assert (Hw1 : w1 = set_rng_pos (S (rng_pos w)) w).
  { rewrite (choose_unfold _ _ _ _ Hself) in Hch. now injection Hch as _ <-. }
  assert (Hbefore : before_phase env cname w1
                    = (Ok (dict_keys (s_methods cls)), w1)).
  { rewrite (before_phase_unfold _ _ a self cls) by (subst w1; assumption).
    unfold bind. rewrite call_hook_absent by now apply dict_get_None_keys.
    reflexivity. }
  rewrite (_next_step_from_do w w1 w1 cname (dict_keys (s_methods cls)) do);
    [| now rewrite (select_unfold _ _ _ Hcur) | exact Hbefore | exact Hdo].
  replace (_state_ret (dfa w1)) with (_state_ret (dfa w)) by now subst w1.
  unfold bind at 1. rewrite Hcall. unfold bind, modify.
  apply call_hook_absent. now apply dict_get_None_keys.
Qed.

(** A fault aborts the step where it happens.  When the pre-hook raises,
    the command is not looked up or called; when the command raises, the
    engine assigns nothing to the accumulator and runs no post-hook.  In
    both cases the step raises the same exception and the world is the one
    the faulty call left. *)
Theorem fault_aborts_step (w w1 : World) (a : addr) (self : StateObj)
    (cls : StateClass Acc) (cname : string) :
  select env w = (Ok cname, w1) ->
  state (dfa w1) = Some a -> heap w1 !! a = Some self ->
  class_of env self = Some cls ->
  (forall (hook : Hook Acc) (e : exn) (w2 : World),
     dict_get (s_methods cls) ("before_" ++ cname) = Some hook ->
     hook a w1 = (Raise e, w2) ->
     _next_step env w = (Raise e, w2)) /\
  (forall (attrs : list string) (do : Method Acc) (e : exn) (w2 w3 : World),
     before_phase env cname w1 = (Ok attrs, w2) ->
     get_do env cname w2 = (Ok do, w2) ->
     do (_state_ret (dfa w2)) w2 = (Raise e, w3) ->
     _next_step env w = (Raise e, w3)).
Proof.
  intros Hsel Hcur Hself Hcls. split.
  - intros hook e w2 Hhook Hraise. rewrite _next_step_by_phases.
    unfold bind at 1. rewrite Hsel. unfold bind at 1.
    rewrite (before_phase_unfold _ _ a self cls Hcur Hself Hcls).
    unfold bind at 1.
    rewrite (call_hook_present _ _ _ a self cls) by
      (try assumption; eapply dict_get_Some_keys, Hhook).
    now rewrite Hhook, Hraise.
  - intros attrs do e w2 w3 Hbefore Hdo Hraise.
    rewrite (_next_step_from_do w w1 w2 cname attrs do Hsel Hbefore Hdo).
    unfold bind at 1. now rewrite Hraise.
Qed.

(** The engine decides whether there is a post-hook from [dir] of the
    state that was current when the step started, but fetches it from the
    state that is current after the command.  So when the pre-hook or the
    command has switched states: no post-hook runs if the starting state
    has none, whatever the new state defines; otherwise the new state's
    post-hook for the command runs, and the step raises [AttributeError]
    if the new state has none. *)
Theorem post_hook_is_fetched_from_current_state (w w3 : World)
    (a0 ay : addr) (self0 selfy : StateObj) (cls0 clsy : StateClass Acc)
    (cname : string) (attrs : list string) :
  state (dfa w) = Some a0 -> heap w !! a0 = Some self0 ->
  class_of env self0 = Some cls0 ->
  step_until_executed env w = (Ok (cname, attrs), w3) ->
  state (dfa w3) = Some ay -> heap w3 !! ay = Some selfy ->
  class_of env selfy = Some clsy ->
  (dict_get (s_methods cls0) ("after_" ++ cname) = None ->
     _next_step env w = (Ok tt, w3)) /\
  (is_Some (dict_get (s_methods cls0) ("after_" ++ cname)) ->
     _next_step env w =
       match dict_get (s_methods clsy) ("after_" ++ cname) with
       | Some hook => hook ay w3
       | None => (Raise AttributeError, w3)
       end).
Proof.
  intros Hcur Hself Hcls Hrun Hcur3 Hself3 Hcls3.
  destruct (step_until_executed_start _ _ _ _ _ _ _ _ Hcur Hself Hcls Hrun)
    as [-> _].
  assert (Hstep : _next_step env w
                  = call_hook env (dict_keys (s_methods cls0)) ("after_" ++ cname) w3).
  { rewrite _next_step_phases. unfold bind at 1. now rewrite Hrun. }
  rewrite Hstep. split.
  - intros Hnone. apply call_hook_absent. now apply dict_get_None_keys.
  - intros [hook Hhook]. apply (call_hook_present _ _ _ ay selfy clsy);
      try assumption.
    eapply dict_get_Some_keys, Hhook.
Qed.

(** The engine threads the accumulator and does nothing else to it: a
    completed step called its command once and left in [_state_ret] exactly
    what the command returned; and if the hooks run between two commands
    leave [_state_ret] alone, the command of the next step is called with
    exactly that value. *)
Theorem accumulator_is_threaded (w w3 w4 w5 w6 : World) (c c' : string)
    (attrs attrs' : list string) (do' : Method Acc) :
  step_until_executed env w = (Ok (c, attrs), w3) ->
  call_hook env attrs ("after_" ++ c) w3 = (Ok tt, w4) ->
  select env w4 = (Ok c', w5) ->
  before_phase env c' w5 = (Ok attrs', w6) ->
  get_do env c' w6 = (Ok do', w6) ->
  _state_ret (dfa w6) = _state_ret (dfa w3) ->
  exists (w2 w2' : World) (do : Method Acc) (r : option Acc),
    get_do env c w2 = (Ok do, w2) /\
    do (_state_ret (dfa w2)) w2 = (Ok r, w2') /\
    w3 = set__state_ret r w2' /\
    _next_step env w = (Ok tt, w4) /\
    _next_step env w4 =
      (r' <- do' r ;;
       modify (set__state_ret r') ;;
       call_hook env attrs' ("after_" ++ c')) w6.
Proof.
  intros Hrun Hafter Hsel Hbefore Hdo' Hkeep.
  pose proof Hrun as Hphases. rewrite step_until_executed_by_phases in Hphases.
  unfold bind at 1 in Hphases.
  destruct (select env w) as [[c0| |] w1]; try discriminate.
  unfold bind at 1 in Hphases.
  destruct (before_phase env c0 w1) as [[attrs0| |] w2]; try discriminate.
  unfold bind at 1 in Hphases.
  destruct (execute_phase env c0 w2) as [[[]| |] w3'] eqn:Hexec; try discriminate.
  injection Hphases as -> -> ->.
  destruct (execute_phase_inv _ _ _ Hexec) as (do & r & w2' & Hdo & Hcall & Hw3).
  exists w2, w2', do, r. repeat split; try assumption.
  - rewrite _next_step_phases. unfold bind at 1. now rewrite Hrun.
  - rewrite (_next_step_from_do w4 w5 w6 c' attrs' do' Hsel Hbefore Hdo').
    rewrite Hkeep, Hw3. reflexivity.
Qed.

(** *** The run loops, whatever the steps do to the bounds *)

Lemma nsteps_0_inv (w w' : World) : nsteps env 0 w = (Ok tt, w') -> w' = w.
Proof. cbn. unfold ret. congruence. Qed.

Lemma _drive_counter_loop_advance (k : nat) :
  forall (fuel : nat) (count : Z) (w w_k : World),
  nsteps env k w = (Ok tt, w_k) ->
  (forall j wj, (j < k)%nat -> nsteps env j w = (Ok tt, wj) ->
     lt_count (count + Z.of_nat j) (nexec (dfa wj)) = true) ->
  _drive_counter_loop env (k + fuel) count w
    = _drive_counter_loop env fuel (count + Z.of_nat k) w_k.
Proof.
  induction k as [|k IH]; intros fuel count w w_k Hrun Hcond.
  - apply nsteps_0_inv in Hrun as ->. cbn. now rewrite Z.add_0_r.
  - apply nsteps_S_inv in Hrun as (w1 & Hstep & Hrest).
    cbn [Nat.add _drive_counter_loop]. unfold bind at 1, gets.
    pose proof (Hcond 0%nat w ltac:(lia) eq_refl) as H0.
    rewrite Z.add_0_r in H0. rewrite H0. unfold bind. rewrite Hstep.
    rewrite (IH fuel (count + 1)%Z w1 w_k Hrest).
    + f_equal. lia.
    + intros j wj Hj Hj_run.
      replace (count + 1 + Z.of_nat j)%Z with (count + Z.of_nat (S j))%Z by lia.
      apply (Hcond (S j)); [lia|]. eapply nsteps_S_Ok; eassumption.
Qed.

Lemma _drive_time_loop_advance (begin_at : Q) (k : nat) :
  forall (fuel : nat) (w w_k : World),
  nsteps env k w = (Ok tt, w_k) ->
  (forall j wj, (j < k)%nat -> nsteps env j w = (Ok tt, wj) ->
     lt_elapsed begin_at (clock wj) (duration (dfa wj)) = true) ->
  _drive_time_loop env (k + fuel) begin_at (clock w) w
    = _drive_time_loop env fuel begin_at (clock w_k) w_k.
Proof.
  induction k as [|k IH]; intros fuel w w_k Hrun Hcond.
  - apply nsteps_0_inv in Hrun as ->. reflexivity.
  - apply nsteps_S_inv in Hrun as (w1 & Hstep & Hrest).
    cbn [Nat.add _drive_time_loop]. unfold bind at 1, gets.
    rewrite (Hcond 0%nat w ltac:(lia) eq_refl).
    unfold bind, time_time, gets. rewrite Hstep.
    apply (IH fuel w1 w_k Hrest).
    intros j wj Hj Hj_run. apply (Hcond (S j)); [lia|].
    eapply nsteps_S_Ok; eassumption.
Qed.

Lemma _drive_counter_loop_S (fuel : nat) (count : Z) (w : World) :
  _drive_counter_loop env (S fuel) count w =
    if lt_count count (nexec (dfa w))
    then (_next_step env ;; _drive_counter_loop env fuel (count + 1)%Z) w
    else (Ok tt, w).
Proof.
  cbn. unfold bind at 1, gets. destruct (lt_count _ _); reflexivity.
Qed.

Lemma _drive_time_loop_S (fuel : nat) (begin_at : Q) (w : World) :
  _drive_time_loop env (S fuel) begin_at (clock w) w =
    if lt_elapsed begin_at (clock w) (duration (dfa w))
    then (_next_step env ;;
          end_at' <- time_time ;;
          _drive_time_loop env fuel begin_at end_at') w
    else (Ok tt, w).
Proof.
  cbn. unfold bind at 1, gets. destruct (lt_elapsed _ _ _); reflexivity.
Qed.

Lemma drive_machine_dispatch (fuel : nat) (a : addr) (w : World) :
  state (dfa w) = Some a ->
  (nexec (dfa w) <> None \/ duration (dfa w) <> None) ->
  drive_machine env fuel w =
    match duration (dfa w) with
    | None => _drive_counter_loop env fuel 0%Z w
    | Some _ => _drive_time_loop env fuel (clock w) (clock w) w
    end.
Proof.
  intros Hcur Hcfg. unfold drive_machine, bind, gets. cbn. rewrite Hcur. cbn.
  destruct (duration (dfa w)) as [d|], (nexec (dfa w)) as [n|]; cbn;
    try reflexivity.
  destruct Hcfg as [H|H]; now elim H.
Qed.

(** [drive_machine] runs steps for as long as the loop condition, read
    anew from the automaton before every step, holds: if it holds after
    each of the first [k - 1] steps and fails after the [k]-th, the run
    returns after exactly [k] steps; if it still holds after [k] steps and
    the next step raises, the run raises the same exception and leaves the
    world as the failing step left it.  Nothing is caught or retried. *)
Theorem drive_machine_runs_while_bound_allows (a : addr) (k : nat)
    (w w_k : World) :
  state (dfa w) = Some a ->
  (nexec (dfa w) <> None \/ duration (dfa w) <> None) ->
  nsteps env k w = (Ok tt, w_k) ->
  (forall j wj, (j < k)%nat -> nsteps env j w = (Ok tt, wj) ->
     keeps_running w j wj = true) ->
  forall fuel : nat, (k < fuel)%nat ->
  (keeps_running w k w_k = false -> drive_machine env fuel w = (Ok tt, w_k)) /\
  (forall (e : exn) (w' : World),
     keeps_running w k w_k = true -> _next_step env w_k = (Raise e, w') ->
     drive_machine env fuel w = (Raise e, w')).
Proof.
  intros Hcur Hcfg Hrun Hcond fuel Hfuel.
  rewrite (drive_machine_dispatch _ _ _ Hcur Hcfg).
  replace fuel with (k + S (fuel - S k))%nat by lia.
  unfold keeps_running in *.
  destruct (duration (dfa w)) as [d|].
  - rewrite (_drive_time_loop_advance (clock w) k _ w w_k Hrun Hcond).
    rewrite _drive_time_loop_S. split.
    + intros ->. reflexivity.
    + intros e w' -> Hstep. unfold bind. now rewrite Hstep.
  - rewrite (_drive_counter_loop_advance k _ 0%Z w w_k Hrun Hcond).
    rewrite _drive_counter_loop_S, Z.add_0_l. split.
    + intros ->. reflexivity.
    + intros e w' -> Hstep. unfold bind. now rewrite Hstep.
Qed.

(** A bound that is not positive runs no step: with a start state, a
    count-bounded run with [nexec <= 0] and a duration-bounded run with
    [duration <= 0] return at once and leave the world untouched. *)
Theorem drive_machine_runs_no_step (fuel : nat) (a : addr) (w : World) :
  state (dfa w) = Some a ->
  ((duration (dfa w) = None /\
    exists N : Z, nexec (dfa w) = Some N /\ (N <= 0)%Z) \/
   (exists D : Q, duration (dfa w) = Some D /\ (D <= 0)%Q)) ->
  drive_machine env (S fuel) w = (Ok tt, w).
Proof.
  intros Hcur [(Hd & N & Hn & HN)|(D & Hd & HD)].
  - rewrite (drive_machine_dispatch _ a) by (auto; left; congruence).
    rewrite Hd. cbn. unfold bind, gets. rewrite Hn. cbn.
    replace (0 <? N)%Z with false by (symmetry; apply Z.ltb_ge; lia).
    reflexivity.
  - rewrite (drive_machine_dispatch _ a) by (auto; right; congruence).
    rewrite Hd. cbn. unfold bind, gets. rewrite Hd. cbn.
    replace (Qlt_bool _ _) with false; [reflexivity|].
    symmetry. apply Qlt_bool_false. ring_simplify (clock w - clock w)%Q. exact HD.
Qed.

(** *** More on the weighted selection *)

Lemma choose_loop_positive (self : StateObj) (a : Q) :
  (forall s x : Q, (x == 0 -> fadd s x == s)%Q) ->
  forall (keys : list string) (s : Q) (k : string),
  choose_loop self a s keys = Ok k ->
  exists c wk, commands self !! k = Some c /\ cmd_weight c = Some wk /\
               ~ (wk == 0)%Q.
Proof.
  intros Hzero. induction keys as [|k0 rest IH]; intros s k; cbn; [discriminate|].
  destruct (commands self !! k0) as [c|] eqn:Hc; [|discriminate].
  destruct (cmd_weight c) as [wk|] eqn:Hw; [|discriminate].
  destruct (Qle_bool s a && Qlt_bool a (fadd s wk)) eqn:Hin.
  - intros [= <-]. exists c, wk. repeat split; [exact Hc | exact Hw |].
    intros Hwk. apply andb_true_iff in Hin as [Hlo Hhi].
    apply Qle_bool_iff in Hlo. apply Qlt_bool_true in Hhi.
    rewrite (Hzero s wk Hwk) in Hhi. now apply Qlt_not_le in Hhi.
  - apply IH.
Qed.

(** A weight of zero switches a command off: its interval is empty, so
    [choose] never returns it, whatever the draw and whatever the other
    weights are.  (What is needed of [+] is that adding zero changes
    nothing.) *)
Theorem choose_skips_zero_weight (a : addr) (self : StateObj) (w w' : World)
    (k : string) :
  (forall s x : Q, (x == 0 -> fadd s x == s)%Q) ->
  heap w !! a = Some self ->
  choose env a w = (Ok k, w') ->
  exists c wk, commands self !! k = Some c /\ cmd_weight c = Some wk /\
               ~ (wk == 0)%Q.
Proof.
  intros Hzero Hself. rewrite (choose_unfold _ _ _ _ Hself). unfold choose_at.
  destruct (class_of env self) as [cls|]; [|discriminate].
  intros [= Hrun _]. eapply choose_loop_positive; eassumption.
Qed.

Lemma choose_loop_misses {laws : NumLaws ops} weight (self : StateObj) (a : Q) :
  (forall k wk, dict_get weight k = Some wk -> (0 <= wk)%Q) ->
  forall (keys : list string) (s : Q),
  (forall k, k ∈ keys -> entry_ok weight self k) ->
  (0 <= s)%Q -> (a < 0 \/ running_sum weight s keys <= a)%Q ->
  choose_loop self a s keys = Raise ValueError.
Proof.
  intros Hpos. induction keys as [|k rest IH]; intros s Hent Hs Hout;
    [reflexivity|].
  destruct (Hent k) as (c & wk & Hc & Hcw & Hw); [left|].
  cbn in Hout |- *. rewrite Hw in Hout. cbn in Hout. rewrite Hc, Hcw.
  assert (Hs1 : (0 <= fadd s wk)%Q).
  { eapply Qle_trans; [exact Hs|]. apply fadd_ge_l; eauto. }
  replace (Qle_bool s a && Qlt_bool a (fadd s wk)) with false.
  - apply IH; auto. intros; apply Hent; now right.
  - symmetry. apply andb_false_iff. destruct Hout as [Hneg|Hbig].
    + left. destruct (Qle_bool s a) eqn:E; [|reflexivity].
      apply Qle_bool_iff in E. lra.
    + right. apply Qlt_bool_false.
      eapply Qle_trans; [|exact Hbig]. now apply running_sum_ge.
Qed.

(** The [raise ValueError] that ends [choose] is reached exactly for the
    draws outside [[0, total)]: for a state whose commands were imported
    and whose weights are non-negative, [choose] on the draw [x] raises
    if and only if [x < 0] or [total <= x]. *)
Theorem choose_raises_iff_out_of_range (laws : NumLaws ops) (argv : list cref)
    (self0 self : StateObj) (cls : StateClass Acc) (x : Q) :
  class_of env self0 = Some cls ->
  _import_commands env argv self0 = (Ok tt, self) ->
  (forall k wk, dict_get (weight cls) k = Some wk -> (0 <= wk)%Q) ->
  choose_at env self x = Raise ValueError <->
  (x < 0 \/ _weight_sum self <= x)%Q.
Proof.
  intros Hcls Himp Hpos.
  destruct (_import_commands_ok _ _ _ _ _ Hcls Himp) as (Hcls' & Hsum & Hent).
  unfold choose_at. rewrite Hcls'. split.
  - intros Hraise. destruct (Qlt_le_dec x 0) as [Hneg|Hlo]; [now left|].
    destruct (Qlt_le_dec x (_weight_sum self)) as [Hhi|Hbig]; [|now right].
    rewrite Hsum in Hhi.
    destruct (choose_loop_hits (weight cls) self x _ 0%Q Hent Hlo Hhi)
      as (pre & k & wk & post & _ & _ & Hrun & _).
    congruence.
  - intros Hout. apply (choose_loop_misses (weight cls)); try assumption.
    + apply Qle_refl.
    + now rewrite <- Hsum.
Qed.

(** *** More on registration *)

Lemma _set_weight_loop_class_any weight keys : forall self,
  st_class (snd (_set_weight_loop weight keys self)) = st_class self.
Proof.
  induction keys as [|wname rest IH]; intros self; [reflexivity|].
  cbn. unfold bind, get.
  destruct (commands self !! wname) as [c|]; [|reflexivity].
  destruct (dict_get weight wname) as [w|]; [|reflexivity].
  cbn.
  match goal with
  | |- context [_set_weight_loop weight rest ?s1] =>
      specialize (IH s1); destruct (_set_weight_loop weight rest s1) as [[| |] ?]
  end; exact IH.
Qed.

(** Importing commands, whether it returns or raises, leaves the instance
    an instance of its class. *)
Lemma _import_commands_class_any (argv : list cref) (self : StateObj) :
  st_class (snd (_import_commands env argv self)) = st_class self.
Proof.
  unfold _import_commands, bind.
  pose proof (_import_loop_class env argv self) as Hloop.
  destruct (_import_loop env argv self) as [[[]| |] self1]; try exact Hloop.
  cbn in Hloop. unfold _set_weight, bind, modify, get. cbn.
  destruct (class_of env (set__weight_sum 0%Q self1)) as [cls|]; cbn;
    [|exact Hloop].
  pose proof (_set_weight_loop_class_any (weight cls) (dict_keys (weight cls))
                (set__weight_sum 0%Q self1)) as Hsw.
  destruct (_set_weight_loop _ _ _) as [[| |] self2]; cbn in *; congruence.
Qed.

(** What [add_state] leaves, in every case. *)
Lemma add_state_world (st : cref) (argv : list cref) (is_start : bool) (w : World) :
  snd (add_state env st argv is_start w) = w \/
  exists cls self',
    state_class env st = Some cls /\ s_is_State cls = true /\
    st_class self' = st /\
    (snd (add_state env st argv is_start w) = registered cls self' w \/
     is_start = true /\
     snd (add_state env st argv is_start w)
       = set_state (Some (length (heap w))) (registered cls self' w)).
Proof.
  rewrite add_state_rejects.
  destruct (state_class env st) as [cls|] eqn:Hcls; [|now left].
  destruct (s_is_State cls) eqn:Hs; [|now left].
  right. rewrite (add_state_unfold _ _ _ _ _ _ Hcls Hs).
  pose proof (_import_commands_class_any argv (new_State st)) as Hclass.
  destruct (_import_commands env argv (new_State st)) as [[[]| |] self'];
    exists cls, self'; cbn in Hclass |- *;
    repeat split; try assumption; try (now left).
  destruct is_start; [right | left]; auto.
Qed.

(** [add_state] touches nothing but its own registration: the configured
    bounds, the accumulator, the clock, the random stream and the output
    are as before, every instance made earlier is unchanged in the heap,
    every other name is bound as before, and the current state is as
    before unless [is_start] is given.  This holds whether the call
    returns or raises. *)
Theorem add_state_frame (st : cref) (argv : list cref) (is_start : bool)
    (w : World) :
  let w' := snd (add_state env st argv is_start w) in
  nexec (dfa w') = nexec (dfa w) /\
  duration (dfa w') = duration (dfa w) /\
  _state_ret (dfa w') = _state_ret (dfa w) /\
  clock w' = clock w /\ rng_pos w' = rng_pos w /\ stdout w' = stdout w /\
  (forall a self, heap w !! a = Some self -> heap w' !! a = Some self) /\
  (forall n, (forall cls, state_class env st = Some cls -> n <> lower (s_name cls)) ->
             states (dfa w') !! n = states (dfa w) !! n) /\
  (is_start = false -> state (dfa w') = state (dfa w)).
Proof.
  intros w'. subst w'.
  destruct (add_state_world st argv is_start w)
    as [-> | (cls & self' & Hcls & _ & _ & [-> | [His ->]])].
  - repeat split; auto.
  - unfold registered. cbn. repeat split; auto.
    + intros a self Hself. rewrite lookup_app_l; [exact Hself|].
      eapply lookup_lt_Some, Hself.
    + intros n Hn. apply lookup_insert_ne. intros Heq. now apply (Hn cls).
  - unfold registered. cbn. repeat split; auto.
    + intros a self Hself. rewrite lookup_app_l; [exact Hself|].
      eapply lookup_lt_Some, Hself.
    + intros n Hn. apply lookup_insert_ne. intros Heq. now apply (Hn cls).
    + congruence.
Qed.

(** An import that raises leaves the new state behind: [add_state] has
    already bound the lowered class name to the new instance (over a state
    registered under that name before), the instance holds whatever the
    import did before it raised, and [is_start] is not acted on. *)
Theorem add_state_failed_import_stays_registered (st : cref)
    (cls : StateClass Acc) (argv : list cref) (is_start : bool) (w : World)
    (e : exn) (self' : StateObj) :
  state_class env st = Some cls -> s_is_State cls = true ->
  _import_commands env argv (new_State st) = (Raise e, self') ->
  exists w' : World,
    add_state env st argv is_start w = (Raise e, w') /\
    states (dfa w') !! lower (s_name cls) = Some (length (heap w)) /\
    heap w' !! length (heap w) = Some self' /\
    length (heap w') = S (length (heap w)) /\
    state (dfa w') = state (dfa w).
Proof.
  intros Hcls Hs Himp. exists (registered cls self' w).
  rewrite (add_state_unfold _ _ _ _ _ _ Hcls Hs), Himp.
  unfold registered. cbn. repeat split.
  - apply lookup_insert_eq.
  - now apply list_lookup_middle.
  - rewrite length_app. cbn. lia.
Qed.

(** A state that [add_state] has registered can be switched to by the
    lowered name of its class: the call returns and the new instance, an
    instance of that class, is the current state. *)
Theorem added_state_can_be_switched_to (st : cref) (cls : StateClass Acc)
    (argv : list cref) (is_start : bool) (w w' : World) :
  state_class env st = Some cls ->
  add_state env st argv is_start w = (Ok tt, w') ->
  exists self' : StateObj,
    switch_state_to (lower (s_name cls)) w'
      = (Ok tt, set_state (Some (length (heap w))) w') /\
    heap w' !! length (heap w) = Some self' /\ st_class self' = st.
Proof.
  intros Hcls Hrun.
  assert (Hs : s_is_State cls = true).
  { rewrite add_state_rejects, Hcls in Hrun.
    destruct (s_is_State cls); [reflexivity | discriminate]. }
  rewrite (add_state_unfold _ _ _ _ _ _ Hcls Hs) in Hrun.
  pose proof (_import_commands_class_any argv (new_State st)) as Hclass.
  destruct (_import_commands env argv (new_State st)) as [[[]| |] self'];
    try discriminate.
  cbn in Hclass. exists self'. injection Hrun as <-.
  split; [|split; [|exact Hclass]].
  - apply switch_state_to_registered.
    destruct is_start; unfold registered; cbn; apply lookup_insert_eq.
  - destruct is_start; unfold registered; cbn; now apply list_lookup_middle.
Qed.

(** The invariant of the automata a program can build is kept by
    [registered], the world [add_state] leaves. *)
Lemma registered_sound (st : cref) (cls : StateClass Acc) (self' : StateObj)
    (w : World) :
  state_class env st = Some cls -> s_is_State cls = true ->
  st_class self' = st ->
  current_live w -> instances_of_State env w ->
  current_live (registered cls self' w) /\
  instances_of_State env (registered cls self' w).
Proof.
  intros Hcls Hs Hst Hlive Hinst. unfold registered. split.
  - intros a Ha. cbn in *. rewrite length_app. cbn. apply Hlive in Ha. lia.
  - intros a self Hself. cbn in Hself.
    apply lookup_app_Some in Hself as [Hself|[_ Hself]]; [eauto|].
    apply list_lookup_singleton_Some in Hself as [_ <-].
    exists cls. unfold class_of. now rewrite Hst.
Qed.

(** Every automaton a program can build by [DFA.__init__], [add_state] and
    [switch_state_to], whether the calls return or raise, is sound: each
    registered name refers to an instance in the heap and no instance has
    two names; the current state, when there is one, is an instance in the
    heap; and every instance was made from a [State] class.  So the engine
    never follows a reference that leads nowhere. *)
Theorem built_automaton_is_sound (w : World) :
  built env w ->
  registry_wf w /\ current_live w /\ instances_of_State env w.
Proof.
  induction 1 as [w Hstates Hstate Hheap
                 | w st argv is_start _ (Hwf & Hlive & Hinst)
                 | w name _ (Hwf & Hlive & Hinst)].
  - repeat split.
    + intros n a. rewrite Hstates, lookup_empty. discriminate.
    + intros n1 n2 a. rewrite Hstates, lookup_empty. discriminate.
    + intros a. rewrite Hstate. discriminate.
    + intros a self. rewrite Hheap, lookup_nil. discriminate.
  - split; [now apply add_state_registry_wf|].
    destruct (add_state_world st argv is_start w)
      as [-> | (cls & self' & Hcls & Hs & Hst & [-> | [_ ->]])];
      [now split | now apply (registered_sound st) |].
    destruct (registered_sound st cls self' w Hcls Hs Hst Hlive Hinst)
      as [_ Hinst'].
    split; [|exact Hinst'].
    intros a. unfold registered. cbn. intros [= <-]. rewrite length_app. cbn. lia.
  - unfold switch_state_to, bind, gets.
    destruct (states (dfa w) !! name) as [a|] eqn:Hname;
      [|exact (conj Hwf (conj Hlive Hinst))].
    split; [exact Hwf|]. split; [|exact Hinst].
    intros a' [= <-]. cbn. destruct Hwf as [Hreg _]. eapply Hreg, Hname.
Qed.




End MoreProperties.

(** ** The properties on the examples *)

Lemma exact_laws : NumLaws exact_ops.
Proof.
  split; cbn.
  - intros x y _ Hy. lra.
  - intros r w Hw. rewrite Hw. ring.
Qed.

Lemma world0_registry_wf (nexec : option Z) (duration : option Q) :
  registry_wf (Docstring.world0 nexec duration).
Proof.
  split; cbn; intros *; rewrite lookup_empty; discriminate.
Qed.

Lemma start_registry_wf (nexec : option Z) (duration : option Q) :
  registry_wf (Counting.start nexec duration).
Proof.
  unfold Counting.start, Counting.add, bind.
  pose proof (add_state_registry_wf (ops := exact_ops) Counting.env 11%nat
                [2%nat; 3%nat] true _ (world0_registry_wf nexec duration)) as H1.
  destruct (add_state Counting.env 11%nat [2%nat; 3%nat] true _)
    as [[[]| |] w1]; try exact H1.
  apply add_state_registry_wf. exact H1.
Qed.

Ltac in_concrete_list :=
  vm_compute; repeat (first [apply list_elem_of_here | apply list_elem_of_further]).

Ltac valid_commands :=
  repeat constructor; eexists; split; vm_compute; reflexivity.

(** C1: the example of the module docstring, whose commands define
    [execute] as the base class asks, does not get through its first step:
    the pre-hook runs, then the engine looks up [do] on the command and
    [AttributeError] is raised; [execute] is not called, the accumulator
    is not assigned and no post-hook runs. *)
Theorem docstring_example_raises_AttributeError :
  let r := Docstring.main None (Some 10%Q) 5 in
  fst r = Raise AttributeError /\
  stdout (snd r) = ["State S1"] /\
  _state_ret (dfa (snd r)) = None /\
  state (dfa (snd r)) = Some 0%nat.
Proof. vm_compute. repeat split. Qed.

(** With both bounds configured and a start state, [drive_machine] raises
    nothing: it runs the timed loop, here two steps although the count
    is one. *)
Lemma drive_machine_both_bounds_runs :
  let w := Counting.start (Some 1%Z) (Some 1%Q) in
  nexec (dfa w) = Some 1%Z /\ duration (dfa w) = Some 1%Q /\
  fst (Counting.drive 10 w) = Ok tt /\
  _state_ret (dfa (snd (Counting.drive 10 w))) = Some 2%Z /\
  stdout (snd (Counting.drive 10 w))
    = ["State S1"; "Execute C2"; "State S2"; "Execute C1"].
Proof. vm_compute. repeat split. Qed.

Lemma drive_machine_configuration_witness :
  Counting.drive 10 (Docstring.world0 None None)
    = (Raise ValueError, Docstring.world0 None None) /\
  Counting.drive 10 (Docstring.world0 (Some 3%Z) None)
    = (Raise NotInitializedError, Docstring.world0 (Some 3%Z) None) /\
  Counting.drive 10 (Counting.start (Some 1%Z) (Some 1%Q))
    = _drive_time_machine (ops := exact_ops) Counting.env 10
        (Counting.start (Some 1%Z) (Some 1%Q)).
Proof.
  split; [|split].
  - apply (drive_machine_configuration (ops := exact_ops) Counting.env 10
             (Docstring.world0 None None)); reflexivity.
  - apply (drive_machine_configuration (ops := exact_ops) Counting.env 10
             (Docstring.world0 (Some 3%Z) None)); [left; discriminate | reflexivity].
  - apply (proj2 (proj2 (drive_machine_configuration (ops := exact_ops)
             Counting.env 10 (Counting.start (Some 1%Z) (Some 1%Q))))
             1%Z 1%Q 0%nat); reflexivity.
Defined.

(** A post-hook that assigns [self.dfa.nexec = 1] during the first step of
    a run configured with count three ends the run after that step: the
    counting command ran once. *)
Lemma drive_machine_rereads_nexec :
  let w := Counting.start_short (Some 3%Z) in
  nexec (dfa w) = Some 3%Z /\ duration (dfa w) = None /\
  state (dfa w) = Some 0%nat /\
  Counting.drive 10 w = Counting.steps 1 w /\
  fst (Counting.drive 10 w) = Ok tt /\
  _state_ret (dfa (snd (Counting.drive 10 w))) = Some 1%Z /\
  Counting.drive 10 w <> Counting.steps 3 w.
Proof. vm_compute. repeat split. discriminate. Qed.

Lemma drive_machine_counts_steps_witness :
  let w := Counting.start (Some 3%Z) None in
  Counting.drive 10 w = Counting.steps 3 w /\
  _state_ret (dfa (snd (Counting.drive 10 w))) = Some 3%Z.
Proof.
  intros w. split.
  - apply (drive_machine_counts_steps (ops := exact_ops) Counting.env 3%Z 0%nat w);
      [reflexivity | reflexivity | reflexivity | lia | | vm_compute; lia].
    intros k w' Hk.
    destruct k as [|[|[|k]]]; [| | |vm_compute in Hk; lia];
      intros Hrun; vm_compute in Hrun; injection Hrun as <-; reflexivity.
  - vm_compute. reflexivity.
Defined.

Lemma choose_returns_key_witness :
  exists pre k wk post,
    dict_keys (weight Docstring.S1) = (pre ++ k :: post)%list /\
    dict_get (weight Docstring.S1) k = Some wk /\
    choose (ops := exact_ops) Counting.env 0%nat (Counting.start None None)
      = (Ok k, set_rng_pos 1 (Counting.start None None)) /\
    (running_sum (ops := exact_ops) (weight Docstring.S1) 0 pre <= (1 # 4) * 2)%Q /\
    ((1 # 4) * 2 < running_sum (ops := exact_ops) (weight Docstring.S1) 0 pre + wk)%Q.
Proof.
  destruct (choose_returns_key (ops := exact_ops) Counting.env
              [2%nat; 3%nat] (new_State 11)
              (snd (_import_commands (ops := exact_ops) Counting.env
                      [2%nat; 3%nat] (new_State 11)))
              Docstring.S1 0%nat (Counting.start None None))
    as (pre & k & wk & post & Hkeys & Hwk & Hrun & Hlo & Hhi & _);
    [reflexivity | vm_compute; reflexivity | vm_compute; reflexivity
    | vm_compute; discriminate | vm_compute; reflexivity |].
  exists pre, k, wk, post. repeat split; [exact Hkeys | exact Hwk | exact Hrun
                                           | exact Hlo | exact Hhi].
Defined.

(** Two entries with the same lowered name are imported without an
    exception; the instance of the later one is the one kept. *)
Lemma add_state_accepts_duplicate_names :
  let r := Counting.add 11%nat [2%nat; 4%nat; 3%nat] true
             (Docstring.world0 None None) in
  cname_of Counting.env 2%nat = cname_of Counting.env 4%nat /\
  fst r = Ok tt /\
  (self ← heap (snd r) !! 0%nat; c ← commands self !! "c2"; Some (cmd_class c))
    = Some 4%nat.
Proof. vm_compute. repeat split. Qed.

Lemma add_state_import_outcome_witness :
  let w := Docstring.world0 None None in
  fst (Counting.add 11%nat [2%nat; 5%nat; 3%nat] true w) = Raise KeyError /\
  fst (Counting.add 11%nat [2%nat; 6%nat; 3%nat] true w) = Raise TypeError /\
  fst (Counting.add 11%nat [2%nat] true w) = Raise ValueError /\
  exists w' self',
    Counting.add 11%nat [2%nat; 4%nat; 3%nat] true w = (Ok tt, w') /\
    heap w' !! 0%nat = Some self' /\
    cmd_class <$> commands self' !! "c2" = Some 4%nat.
Proof.
  intros w. split; [|split; [|split]].
  - apply (proj1 (add_state_import_outcome (ops := exact_ops) Counting.env
             11%nat Docstring.S1 [2%nat; 5%nat; 3%nat] true w eq_refl eq_refl)
             [2%nat] 5%nat [3%nat] eq_refl); [valid_commands|].
    intros (cls & Hcls & Hcmd). vm_compute in Hcls. injection Hcls as <-.
    discriminate Hcmd.
  - apply (proj1 (add_state_import_outcome (ops := exact_ops) Counting.env
             11%nat Docstring.S1 [2%nat; 6%nat; 3%nat] true w eq_refl eq_refl)
             [2%nat] 6%nat [3%nat] eq_refl); [valid_commands|].
    intros (cls & Hcls & _). vm_compute in Hcls. discriminate Hcls.
  - apply (proj1 (proj2 (add_state_import_outcome (ops := exact_ops) Counting.env
             11%nat Docstring.S1 [2%nat] true w eq_refl eq_refl)));
      [valid_commands|].
    exists "c3". split; [in_concrete_list|].
    vm_compute. intros H. apply list_elem_of_singleton in H. discriminate H.
  - destruct (proj2 (proj2 (add_state_import_outcome (ops := exact_ops)
                 Counting.env 11%nat Docstring.S1 [2%nat; 4%nat; 3%nat] true w
                 eq_refl eq_refl)))
      as (w' & self' & Hrun & Hself & Hlast); [valid_commands | |].
    + intros k Hk. vm_compute in Hk.
      apply elem_of_cons in Hk as [->|Hk];
        [|apply list_elem_of_singleton in Hk as ->]; in_concrete_list.
    + exists w', self'. split; [exact Hrun|]. split; [exact Hself|].
      apply (Hlast [2%nat] 4%nat [3%nat] eq_refl).
      vm_compute. intros H. apply list_elem_of_singleton in H. discriminate H.
Defined.

Lemma choose_fails_on_zero_weight_witness :
  choose (ops := exact_ops) Counting.env 0%nat Counting.start_idle
    = (Raise ValueError, set_rng_pos 1 Counting.start_idle).
Proof.
  apply (choose_fails_on_zero_weight (ops := exact_ops) Counting.env exact_laws
           [3%nat] (new_State 15)
           (snd (_import_commands (ops := exact_ops) Counting.env [3%nat]
                   (new_State 15)))
           Counting.Idle 0%nat Counting.start_idle).
  - reflexivity.
  - vm_compute. reflexivity.
  - vm_compute. reflexivity.
  - intros k wk Hget. pose proof (dict_get_Some_keys _ _ _ Hget) as Hin.
    vm_compute in Hin. apply list_elem_of_singleton in Hin as ->.
    vm_compute in Hget. injection Hget as <-. apply Qle_refl.
  - right. vm_compute. reflexivity.
Defined.

Lemma switch_state_to_spec_witness :
  let w := Counting.start (Some 3%Z) None in
  switch_state_to "nonexistent" w = (Raise DoesNotFound, w) /\
  exists w', switch_state_to "s2" w = (Ok tt, w') /\
             state (dfa w') = Some 1%nat /\
             w' = set_state (states (dfa w) !! "s2") w.
Proof.
  intros w. split.
  - apply (proj1 (switch_state_to_spec "nonexistent" w)). vm_compute. reflexivity.
  - apply (proj2 (switch_state_to_spec "s2" w) 1%nat). vm_compute. reflexivity.
Defined.

Lemma post_hook_switch_applies_to_next_step_witness :
  let w := Counting.start (Some 3%Z) None in
  let w3 := snd (step_until_executed (ops := exact_ops) Counting.env w) in
  let w5 := set_state (Some 1%nat) w3 in
  state (dfa w) = Some 0%nat /\
  _next_step (ops := exact_ops) Counting.env w = (Ok tt, w5) /\
  state (dfa w5) = Some 1%nat /\
  select (ops := exact_ops) Counting.env w5
    = choose (ops := exact_ops) Counting.env 1%nat w5.
Proof.
  intros w w3 w5. split; [reflexivity|].
  destruct (post_hook_switch_applies_to_next_step (ops := exact_ops) Counting.env
              w w3 w3 0%nat 1%nat
              (snd (_import_commands (ops := exact_ops) Counting.env
                      [2%nat; 3%nat] (new_State 11)))
              (snd (_import_commands (ops := exact_ops) Counting.env
                      [2%nat; 3%nat] (new_State 11)))
              Docstring.S1 "c2" "s2" (dict_keys (s_methods Docstring.S1))
              (fun _ => switch_state_to "s2") (fun _ => ret tt))
    as (_ & Hstep & Hcur & Hsel & _);
    try (vm_compute; reflexivity).
  auto.
Defined.

Lemma drive_machine_duration_bounded_witness :
  let w := Counting.start None (Some 1%Q) in
  let w_n := snd (Counting.steps 2 w) in
  Counting.drive 10 w = (Ok tt, w_n) /\
  (clock w_n - clock w < 1 + (1 # 2))%Q /\
  _state_ret (dfa w_n) = Some 2%Z.
Proof.
  intros w w_n.
  destruct (drive_machine_duration_bounded (ops := exact_ops) Counting.env
              1%Q 0%nat 2%nat w w_n)
    as (_ & _ & Hdrive & w_last & Hlast & _ & _ & Hover);
    [ reflexivity | reflexivity | reflexivity | vm_compute; reflexivity
    | | reflexivity | vm_compute; discriminate | ].
  - intros k w' Hk. assert (k = 1%nat) as -> by lia.
    intros Hrun. vm_compute in Hrun. injection Hrun as <-.
    split; vm_compute; reflexivity.
  - split; [apply Hdrive; lia|]. split; [|vm_compute; reflexivity].
    vm_compute in Hlast. injection Hlast as <-.
    eapply Qlt_le_trans; [exact Hover|]. vm_compute. discriminate.
Defined.

Lemma add_state_rebinds_witness :
  let w := Counting.start (Some 3%Z) None in
  states (dfa w) !! "s1" = Some 0%nat /\ state (dfa w) = Some 0%nat /\
  exists w', Counting.add 13%nat [3%nat] false w = (Ok tt, w') /\
    states (dfa w') !! "s1" = Some 2%nat /\
    state (dfa w') = Some 0%nat /\
    heap w' !! 0%nat = heap w !! 0%nat /\
    forall n, states (dfa w') !! n <> Some 0%nat.
Proof.
  intros w. split; [vm_compute; reflexivity|]. split; [reflexivity|].
  destruct (add_state_rebinds (ops := exact_ops) Counting.env 13%nat Counting.s1
              [3%nat] w 0%nat) with (is_start := false)
    as (w' & self' & Hrun & Hname & _ & _ & _ & _ & Hheap & Hunreg & Hcur).
  - reflexivity.
  - reflexivity.
  - valid_commands.
  - intros k Hk. vm_compute in Hk. apply list_elem_of_singleton in Hk as ->.
    in_concrete_list.
  - apply start_registry_wf.
  - vm_compute. reflexivity.
  - exists w'. repeat split; auto.
Defined.

(** ** The further properties on the examples *)


Lemma step_without_hooks_witness :
  let w := Faults.only 13%nat [3%nat] (Some 1%Z) None in
  let w1 := set_rng_pos 1 w in
  Faults.step w
    = (Ok tt, set__state_ret (Some 1%Z) (snd (Counting.run "C3" None w1))).
Proof.
  intros w w1.
  apply (step_without_hooks (ops := exact_ops) Faults.env w w1
           (snd (Counting.run "C3" None w1)) 0%nat
           (snd (_import_commands (ops := exact_ops) Faults.env [3%nat]
                   (new_State 13)))
           Counting.s1 "c3" (Counting.run "C3") (Some 1%Z));
    vm_compute; reflexivity.
Defined.

Lemma fault_aborts_step_witness :
  let guarded := Faults.only 18%nat [3%nat] (Some 1%Z) None in
  let risky := Faults.only 17%nat [7%nat] (Some 1%Z) None in
  (fst (Faults.step guarded) = Raise NotImplementedError /\
   stdout (snd (Faults.step guarded)) = ["State Guarded"]) /\
  (fst (Faults.step risky) = Raise KeyError /\
   _state_ret (dfa (snd (Faults.step risky))) = None /\
   stdout (snd (Faults.step risky)) = ["State Risky"; "Execute Boom"]).
Proof.
  intros guarded risky. unfold Faults.step. split.
  - pose (w1 := snd (select (ops := exact_ops) Faults.env guarded)).
    pose (hook := (fun _ : nat => bind (print "State Guarded")
                     (fun _ => raise NotImplementedError)) : Hook Z).
    rewrite (proj1 (fault_aborts_step (ops := exact_ops) Faults.env guarded w1
                      0%nat
                      (snd (_import_commands (ops := exact_ops) Faults.env
                              [3%nat] (new_State 18)))
                      Faults.Guarded "c3"
                      ltac:(vm_compute; reflexivity) ltac:(vm_compute; reflexivity)
                      ltac:(vm_compute; reflexivity) ltac:(vm_compute; reflexivity))
               hook NotImplementedError (snd (hook 0%nat w1))
               ltac:(vm_compute; reflexivity) ltac:(vm_compute; reflexivity)).
    vm_compute. split; reflexivity.
  - pose (w1 := snd (select (ops := exact_ops) Faults.env risky)).
    pose (w2 := snd (before_phase Faults.env "boom" w1)).
    pose (do := (fun _ : option Z => bind (print "Execute Boom")
                   (fun _ => raise KeyError)) : Method Z).
    rewrite (proj2 (fault_aborts_step (ops := exact_ops) Faults.env risky w1
                      0%nat
                      (snd (_import_commands (ops := exact_ops) Faults.env
                              [7%nat] (new_State 17)))
                      Faults.Risky "boom"
                      ltac:(vm_compute; reflexivity) ltac:(vm_compute; reflexivity)
                      ltac:(vm_compute; reflexivity) ltac:(vm_compute; reflexivity))
               (dict_keys (s_methods Faults.Risky)) do KeyError w2
               (snd (do None w2))
               ltac:(vm_compute; reflexivity) ltac:(vm_compute; reflexivity)
               ltac:(vm_compute; reflexivity)).
    vm_compute. repeat split.
Defined.

Lemma post_hook_is_fetched_from_current_state_witness :
  let w3 := snd (step_until_executed (ops := exact_ops) Faults.env Faults.hasty) in
  state (dfa Faults.hasty) = Some 0%nat /\ state (dfa w3) = Some 1%nat /\
  Faults.step Faults.hasty = (Raise AttributeError, w3).
Proof.
  intros w3. split; [reflexivity|]. split; [vm_compute; reflexivity|].
  unfold Faults.step.
  rewrite (proj2 (post_hook_is_fetched_from_current_state (ops := exact_ops)
                  Faults.env Faults.hasty w3 0%nat 1%nat
                  (snd (_import_commands (ops := exact_ops) Faults.env [3%nat]
                          (new_State 19)))
                  (snd (_import_commands (ops := exact_ops) Faults.env [3%nat]
                          (new_State 13)))
                  Faults.Hasty Counting.s1 "c3"
                  (dict_keys (s_methods Faults.Hasty))
                  ltac:(vm_compute; reflexivity) ltac:(vm_compute; reflexivity)
                  ltac:(vm_compute; reflexivity) ltac:(vm_compute; reflexivity)
                  ltac:(vm_compute; reflexivity) ltac:(vm_compute; reflexivity)
                  ltac:(vm_compute; reflexivity))
             ltac:(vm_compute; eauto)).
  reflexivity.
Defined.

Lemma accumulator_is_threaded_witness :
  let w := Counting.start (Some 3%Z) None in
  let w4 := snd (_next_step (ops := exact_ops) Counting.env w) in
  let w6 := snd (before_phase Counting.env "c1"
                   (snd (select (ops := exact_ops) Counting.env w4))) in
  exists r : option Z,
    r = Some 1%Z /\
    _next_step (ops := exact_ops) Counting.env w = (Ok tt, w4) /\
    _next_step (ops := exact_ops) Counting.env w4 =
      bind (Counting.run "C1" r)
        (fun r' => bind (modify (set__state_ret r'))
           (fun _ => call_hook Counting.env (dict_keys (s_methods Docstring.S2))
                       "after_c1")) w6.
Proof.
  intros w w4 w6.
  destruct (accumulator_is_threaded (ops := exact_ops) Counting.env w
              (snd (step_until_executed (ops := exact_ops) Counting.env w))
              w4 (snd (select (ops := exact_ops) Counting.env w4)) w6
              "c2" "c1" (dict_keys (s_methods Docstring.S1))
              (dict_keys (s_methods Docstring.S2)) (Counting.run "C1"))
    as (w2 & w2' & do & r & _ & _ & Hw3 & Hstep & Hnext);
    try (vm_compute; reflexivity).
  exists r. split; [|split; [exact Hstep | exact Hnext]].
  apply (f_equal (fun x => _state_ret (dfa x))) in Hw3.
  vm_compute in Hw3. symmetry. exact Hw3.
Defined.

Lemma drive_machine_runs_while_bound_allows_witness :
  let short := Counting.start_short (Some 3%Z) in
  let risky := Faults.only 17%nat [7%nat] (Some 3%Z) None in
  Counting.drive 10 short = (Ok tt, snd (Counting.steps 1 short)) /\
  Faults.drive 10 risky = (Raise KeyError, snd (Faults.step risky)).
Proof.
  intros short risky. split.
  - assert (Hcur : state (dfa short) = Some 0%nat) by (vm_compute; reflexivity).
    assert (Hcfg : nexec (dfa short) <> None \/ duration (dfa short) <> None)
      by (left; vm_compute; discriminate).
    assert (Hrun : nsteps (ops := exact_ops) Counting.env 1 short
                   = (Ok tt, snd (Counting.steps 1 short)))
      by (vm_compute; reflexivity).
    assert (Hcond : forall j wj, (j < 1)%nat ->
              nsteps (ops := exact_ops) Counting.env j short = (Ok tt, wj) ->
              keeps_running short j wj = true).
    { intros j wj Hj Hj_run. assert (j = 0%nat) as -> by lia.
      vm_compute in Hj_run. injection Hj_run as <-. vm_compute. reflexivity. }
    assert (Hstop : keeps_running short 1 (snd (Counting.steps 1 short)) = false)
      by (vm_compute; reflexivity).
    exact (proj1 (drive_machine_runs_while_bound_allows (ops := exact_ops)
                    Counting.env 0%nat 1%nat short _ Hcur Hcfg Hrun Hcond
                    10%nat ltac:(lia)) Hstop).
  - assert (Hcur : state (dfa risky) = Some 0%nat) by (vm_compute; reflexivity).
    assert (Hcfg : nexec (dfa risky) <> None \/ duration (dfa risky) <> None)
      by (left; vm_compute; discriminate).
    assert (Hrun : nsteps (ops := exact_ops) Faults.env 0 risky = (Ok tt, risky))
      by reflexivity.
    assert (Hcond : forall j wj, (j < 0)%nat ->
              nsteps (ops := exact_ops) Faults.env j risky = (Ok tt, wj) ->
              keeps_running risky j wj = true) by (intros j wj Hj; lia).
    assert (Hgo : keeps_running risky 0 risky = true) by (vm_compute; reflexivity).
    assert (Hstep : _next_step (ops := exact_ops) Faults.env risky
                    = (Raise KeyError, snd (Faults.step risky)))
      by (vm_compute; reflexivity).
    exact (proj2 (drive_machine_runs_while_bound_allows (ops := exact_ops)
                    Faults.env 0%nat 0%nat risky risky Hcur Hcfg Hrun Hcond
                    10%nat ltac:(lia)) KeyError _ Hgo Hstep).
Defined.

Lemma drive_machine_runs_no_step_witness :
  Counting.drive 5 (Counting.start (Some 0%Z) None)
    = (Ok tt, Counting.start (Some 0%Z) None) /\
  Counting.drive 5 (Counting.start (Some 7%Z) (Some 0%Q))
    = (Ok tt, Counting.start (Some 7%Z) (Some 0%Q)).
Proof.
  split.
  - apply (drive_machine_runs_no_step (ops := exact_ops) Counting.env 4 0%nat);
      [reflexivity|].
    left. split; [reflexivity|]. exists 0%Z. split; [reflexivity | lia].
  - apply (drive_machine_runs_no_step (ops := exact_ops) Counting.env 4 0%nat);
      [reflexivity|].
    right. exists 0%Q. split; [reflexivity | apply Qle_refl].
Defined.

Lemma choose_skips_zero_weight_witness :
  let w := Faults.only 20%nat [2%nat; 3%nat] None None in
  choose (ops := exact_ops) Faults.env 0%nat w = (Ok "c3", set_rng_pos 1 w) /\
  exists c wk, (self ← heap w !! 0%nat; commands self !! "c3") = Some c /\
               cmd_weight c = Some wk /\ ~ (wk == 0)%Q.
Proof.
  intros w. split; [vm_compute; reflexivity|].
  destruct (choose_skips_zero_weight (ops := exact_ops) Faults.env 0%nat
              (snd (_import_commands (ops := exact_ops) Faults.env
                      [2%nat; 3%nat] (new_State 20)))
              w (set_rng_pos 1 w) "c3")
    as (c & wk & Hc & Hwk & Hpos).
  - intros s x Hx. cbn. rewrite Hx. ring.
  - vm_compute. reflexivity.
  - vm_compute. reflexivity.
  - exists c, wk. split; [|split; assumption].
    rewrite <- Hc. vm_compute. reflexivity.
Defined.

Lemma choose_raises_iff_out_of_range_witness :
  let self := snd (_import_commands (ops := exact_ops) Counting.env
                     [2%nat; 3%nat] (new_State 11)) in
  _weight_sum self = 2%Q /\
  choose_at (ops := exact_ops) Counting.env self 2 = Raise ValueError /\
  choose_at (ops := exact_ops) Counting.env self (-1 # 2) = Raise ValueError /\
  ~ (3 # 2 < 0 \/ _weight_sum self <= 3 # 2)%Q.
Proof.
  intros self.
  assert (Hiff := fun x => choose_raises_iff_out_of_range (ops := exact_ops)
            Counting.env exact_laws [2%nat; 3%nat] (new_State 11) self
            Docstring.S1 x eq_refl ltac:(vm_compute; reflexivity)).
  assert (Hpos : forall k wk, dict_get (weight Docstring.S1) k = Some wk ->
                              (0 <= wk)%Q).
  { intros k wk Hget. pose proof (dict_get_Some_keys _ _ _ Hget) as Hin.
    vm_compute in Hin.
    apply elem_of_cons in Hin as [->|Hin];
      [|apply list_elem_of_singleton in Hin as ->];
      vm_compute in Hget; injection Hget as <-; vm_compute; discriminate. }
  split; [vm_compute; reflexivity|]. split; [|split].
  - apply (Hiff 2%Q Hpos). right. vm_compute. discriminate.
  - apply (Hiff (-1 # 2)%Q Hpos). left. vm_compute. reflexivity.
  - intros Hout. apply (Hiff (3 # 2)%Q Hpos) in Hout. vm_compute in Hout.
    discriminate Hout.
Defined.

Lemma add_state_failed_import_stays_registered_witness :
  let w := Counting.start (Some 3%Z) None in
  exists w', Counting.add 11%nat [2%nat; 5%nat; 3%nat] false w
               = (Raise KeyError, w') /\
    states (dfa w) !! "s1" = Some 0%nat /\
    states (dfa w') !! "s1" = Some 2%nat /\
    (self ← heap w' !! 2%nat; Some (dom (commands self))) = Some {["c2"]} /\
    state (dfa w') = Some 0%nat.
Proof.
  intros w.
  destruct (add_state_failed_import_stays_registered (ops := exact_ops)
              Counting.env 11%nat Docstring.S1 [2%nat; 5%nat; 3%nat] false w
              KeyError
              (snd (_import_commands (ops := exact_ops) Counting.env
                      [2%nat; 5%nat; 3%nat] (new_State 11)))
              eq_refl eq_refl ltac:(vm_compute; reflexivity))
    as (w' & Hrun & Hname & Hheap & _ & Hcur).
  exists w'. split; [exact Hrun|]. split; [vm_compute; reflexivity|].
  split; [exact Hname|]. split; [|exact Hcur].
  change (length (heap w)) with 2%nat in Hheap. rewrite Hheap.
  vm_compute. reflexivity.
Defined.

Lemma added_state_can_be_switched_to_witness :
  let w := Docstring.world0 (Some 3%Z) None in
  let w' := snd (Counting.add 12%nat [1%nat; 3%nat] false w) in
  state (dfa w') = None /\
  switch_state_to "s2" w' = (Ok tt, set_state (Some 0%nat) w').
Proof.
  intros w w'. split; [reflexivity|].
  destruct (added_state_can_be_switched_to (ops := exact_ops) Counting.env
              12%nat Docstring.S2 [1%nat; 3%nat] false w w' eq_refl
              ltac:(vm_compute; reflexivity))
    as (self' & Hswitch & _).
  exact Hswitch.
Defined.

Lemma built_automaton_is_sound_witness :
  let w := Counting.start (Some 3%Z) None in
  registry_wf w /\ current_live w /\
  instances_of_State Counting.env w.
Proof.
  intros w.
  apply (built_automaton_is_sound (ops := exact_ops) Counting.env w).
  assert (Hw : w = snd (add_state (ops := exact_ops) Counting.env 12%nat
                          [1%nat; 3%nat] false
                          (snd (add_state (ops := exact_ops) Counting.env 11%nat
                                  [2%nat; 3%nat] true
                                  (Docstring.world0 (Some 3%Z) None)))))
    by (vm_compute; reflexivity).
  rewrite Hw. apply built_add_state, built_add_state, built_init; reflexivity.
Defined.

